(** * StudyAssist: the text-analysis pipeline of [app.py]

    A shallow embedding of [clean_text], [split_sentences],
    [tokenize_words], [summarize_text] and [generate_questions], and the
    properties the specification states about them.

    A Python [str] is a sequence of Unicode code points: it is modelled as
    a list of code points, each a number of type [N].  [len] is [length],
    string concatenation is [++]. *)

From Stdlib Require Import NArith ZArith Ascii String List Lia Sorting.Sorted.
From stdpp Require Import base list sorting.

Local Open Scope N_scope.

(** ** Strings and characters *)

Abbreviation str := (list N).

(** A Python string literal (ASCII only in [app.py]) as code points. *)
Definition py (s : string) : str :=
  map N_of_ascii (list_ascii_of_string s).

(** [str.isspace] on one code point; for [str] patterns the regex class
    [\s] is the same set, and it is the set [str.strip()] removes. *)
Definition isspace (c : N) : bool :=
  ((0x09 <=? c) && (c <=? 0x0D)) || ((0x1C <=? c) && (c <=? 0x20))
  || (c =? 0x85) || (c =? 0xA0) || (c =? 0x1680)
  || ((0x2000 <=? c) && (c <=? 0x200A))
  || (c =? 0x2028) || (c =? 0x2029) || (c =? 0x202F) || (c =? 0x205F)
  || (c =? 0x3000).

(** The regex class [\n]. *)
Definition is_newline (c : N) : bool := c =? 0x0A.

(** The regex class [[ \t]]. *)
Definition is_hspace (c : N) : bool := (c =? 0x20) || (c =? 0x09).

(** The regex class [[.!?]]. *)
Definition is_terminal (c : N) : bool := (c =? 46) || (c =? 33) || (c =? 63).

(** The regex class [[a-zA-Z0-9']]. *)
Definition is_word_char (c : N) : bool :=
  ((97 <=? c) && (c <=? 122)) || ((65 <=? c) && (c <=? 90))
  || ((48 <=? c) && (c <=? 57)) || (c =? 39).

(** The class [[a-z0-9']] of the specification's tokens. *)
Definition is_token_char (c : N) : bool :=
  ((97 <=? c) && (c <=? 122)) || ((48 <=? c) && (c <=? 57)) || (c =? 39).

Definition is_ascii_upper (c : N) : bool := (65 <=? c) && (c <=? 90).

(** [str.lower] on an ASCII code point. *)
Definition ascii_lower (c : N) : N := if is_ascii_upper c then c + 32 else c.

(** A stand-in for the case table on inputs that never consult it. *)
Definition no_case_table (s : str) (i : nat) (c : N) : str := [c].

(** ** Library operations of Python used by the source *)

(** [text.replace(a, b)] for one-character [a] and [b]. *)
Definition replace_char (a b : N) (t : str) : str :=
  map (fun c => if c =? a then b else c) t.

(** [re.sub(r"C{2,}", rep, t)] for a character class [C] given by [p]:
    every maximal run of two or more [p]-characters becomes [rep]; a lone
    [p]-character stays.  [in_run] holds while the scan is inside a run
    that has been replaced already. *)
Fixpoint sub_runs2 (p : N -> bool) (rep : N) (in_run : bool) (t : str) : str :=
  match t with
  | [] => []
  | c :: t' =>
      if p c then
        if in_run then sub_runs2 p rep true t'
        else match t' with
             | [] => [c]
             | d :: _ =>
                 if p d then rep :: sub_runs2 p rep true t'
                 else c :: sub_runs2 p rep false t'
             end
      else c :: sub_runs2 p rep false t'
  end.

(** [re.sub(r"C+", rep, t)]: every maximal run of [p]-characters becomes
    [rep]. *)
Fixpoint sub_runs1 (p : N -> bool) (rep : N) (in_run : bool) (t : str) : str :=
  match t with
  | [] => []
  | c :: t' =>
      if p c then
        if in_run then sub_runs1 p rep true t'
        else rep :: sub_runs1 p rep true t'
      else c :: sub_runs1 p rep false t'
  end.

(** [str.lstrip()], [str.rstrip()] and [str.strip()]. *)
Fixpoint lstrip (t : str) : str :=
  match t with
  | [] => []
  | c :: t' => if isspace c then lstrip t' else t
  end.

Definition rstrip (t : str) : str := reverse (lstrip (reverse t)).

Definition strip (t : str) : str := rstrip (lstrip t).

(** [sep.join(parts)]. *)
Fixpoint join (sep : str) (parts : list str) : str :=
  match parts with
  | [] => []
  | [x] => x
  | x :: rest => x ++ sep ++ join sep rest
  end.

(** [re.split(r"(?<=[.!?])\s+", t)].  A match starts at a whitespace
    character whose predecessor is in [[.!?]] and runs over the whole
    whitespace run.  [Piece prev acc]: the scan is inside a piece whose
    characters so far are [acc], and [prev] tells whether the last
    character read is in [[.!?]].  [Gap]: the scan is inside a match. *)
Inductive split_state : Type :=
  | Piece (prev_terminal : bool) (acc : str)
  | Gap.

Fixpoint split_from (st : split_state) (t : str) : list str :=
  match t with
  | [] => match st with Piece _ acc => [acc] | Gap => [[]] end
  | c :: t' =>
      match st with
      | Piece prev acc =>
          if prev && isspace c then acc :: split_from Gap t'
          else split_from (Piece (is_terminal c) (acc ++ [c])) t'
      | Gap =>
          if isspace c then split_from Gap t'
          else split_from (Piece (is_terminal c) [c]) t'
      end
  end.

Definition re_split_sentences (t : str) : list str :=
  split_from (Piece false []) t.

(** The state of that scan after the characters [u], and the characters
    of the piece it is reading. *)
Definition split_next (st : split_state) (c : N) : split_state :=
  match st with
  | Piece prev acc =>
      if prev && isspace c then Gap else Piece (is_terminal c) (acc ++ [c])
  | Gap => if isspace c then Gap else Piece (is_terminal c) [c]
  end.

Definition split_run (st : split_state) (u : str) : split_state :=
  foldl split_next st u.

Definition split_acc (st : split_state) : str :=
  match st with Piece _ acc => acc | Gap => [] end.

(** [re.findall(r"[a-zA-Z0-9']+", t)]; [acc] is the run being read. *)
Fixpoint findall_from (p : N -> bool) (acc : str) (t : str) : list str :=
  match t with
  | [] => match acc with [] => [] | _ => [acc] end
  | c :: t' =>
      if p c then findall_from p (acc ++ [c]) t'
      else match acc with
           | [] => findall_from p [] t'
           | _ => acc :: findall_from p [] t'
           end
  end.

(** [sorted(l, key=key, reverse=reverse)] and [list.sort]: Python's sort
    is stable, also under [reverse=True] (elements of equal key keep their
    original order).  Insertion from the right end of the list, each
    element placed before the first one it may precede, is that sort. *)
Fixpoint insert_by {A} (before : A -> A -> bool) (x : A) (l : list A) : list A :=
  match l with
  | [] => [x]
  | y :: l' => if before x y then x :: l else y :: insert_by before x l'
  end.

Definition sort_by_key {A} (key : A -> nat) (reverse : bool) (l : list A) : list A :=
  foldr (insert_by (fun x y =>
                      if reverse then Nat.leb (key y) (key x)
                      else Nat.leb (key x) (key y))) [] l.

(** The slice [l[:k]] for a Python integer [k]: a negative [k] counts
    from the end. *)
Definition slice_to {A} (k : Z) (l : list A) : list A :=
  if (k <? 0)%Z then take (Z.to_nat (Z.of_nat (length l) + k)) l
  else take (Z.to_nat k) l.

(** [collections.Counter]: a dict, which keeps its keys in the order of
    their first insertion; an association list in that order. *)
Abbreviation counter := (list (str * nat)).

Fixpoint counter_incr (w : str) (c : counter) : counter :=
  match c with
  | [] => [(w, 1%nat)]
  | (k, n) :: c' =>
      if decide (k = w) then (k, S n) :: c' else (k, n) :: counter_incr w c'
  end.

Definition Counter (ws : list str) : counter :=
  foldl (fun c w => counter_incr w c) [] ws.

(** [w in freq] and [freq[w]]. *)
Fixpoint counter_mem (c : counter) (w : str) : bool :=
  match c with
  | [] => false
  | (k, _) :: c' => if decide (k = w) then true else counter_mem c' w
  end.

Fixpoint counter_get (c : counter) (w : str) : nat :=
  match c with
  | [] => 0%nat
  | (k, n) :: c' => if decide (k = w) then n else counter_get c' w
  end.

(** [freq.most_common(n)] is [heapq.nlargest(n, items, key=count)], which
    is [sorted(items, key=count, reverse=True)[:n]]. *)
Definition most_common (n : nat) (c : counter) : counter :=
  take n (sort_by_key snd true c).

(** [tpl.format(term=term)] for a template whose only replacement field
    is [{term}]. *)
Fixpoint format_term (tpl : str) (term : str) : str :=
  match tpl with
  | 123 :: 116 :: 101 :: 114 :: 109 :: 125 :: rest => term ++ format_term rest term
  | c :: tpl' => c :: format_term tpl' term
  | [] => []
  end.

(** [t.rsplit(".", 1)]: the list [[t]] when [t] has no dot, and otherwise
    the part before the last dot and the part after it. *)
Fixpoint rsplit_dot (t : str) : list str :=
  match t with
  | [] => [[]]
  | c :: t' =>
      match rsplit_dot t' with
      | [a; b] => [c :: a; b]
      | _ => if c =? 46 then [[]; t'] else [c :: t']
      end
  end.

(** ["." in t]. *)
Definition has_dot (t : str) : bool := existsb (N.eqb 46) t.


(** ** The functions of [app.py] *)

Definition clean_text (text : str) : str :=
  let text := replace_char 0x0D 0x0A text in
  let text := sub_runs2 is_newline 0x0A false text in
  let text := sub_runs2 is_hspace 0x20 false text in
  strip text.

(** The first line of [split_sentences]:
    [re.sub(r"\s+", " ", text).strip()]. *)
Definition normalize_spaces (text : str) : str :=
  strip (sub_runs1 isspace 0x20 false text).

Definition split_sentences (text : str) : list str :=
  let text := normalize_spaces text in
  match text with
  | [] => []
  | _ =>
      let sentences := re_split_sentences text in
      map strip (List.filter (fun s => Nat.leb 25 (length (strip s))) sentences)
  end.

Definition ALLOWED_EXTENSIONS : list str := map py ["pdf"; "txt"]%string.

(** [read_pdf], on what [page.extract_text()] returns for the pages of
    the document, in order: [None] or a string.  [x or ""] is the empty
    string for [None] and for the empty string. *)
Definition read_pdf (pages : list (option str)) : str :=
  let text_parts := map (fun page_text => default [] page_text) pages in
  join [0x0A] text_parts.

(** What reading an uploaded file gives: its content, or the message of
    the exception raised. *)
Inductive read_result (A : Type) : Type :=
  | Content (a : A)
  | Failed (e : str).
Arguments Content {A} a.
Arguments Failed {A} e.

(** The target of a redirect: [request.url] or [url_for("index")]. *)
Inductive redirect_target : Type := SameUrl | IndexUrl.

(** What [index] answers: a page, a redirect with a flashed message, or
    the [IndexError] of [filename.rsplit(".", 1)[1]]. *)
Inductive response : Type :=
  | RenderIndex
  | RedirectFlash (target : redirect_target) (message : str)
  | RenderResult (filename summary : str) (questions : list str)
  | RaiseIndexError.

(** The request as [index] reads it: [request.method], and the filename
    of the part ["file"] of [request.files], if there is one. *)
Record request : Type := {
  req_method : str;
  req_file : option str
}.

Definition MSG_NO_FILE_PART : str := py "No file part found.".
Definition MSG_NO_FILE_SELECTED : str := py "No file selected.".
Definition MSG_READ_ERROR : str := py "Error reading file: ".
Definition MSG_TOO_SHORT : str :=
  py "Extracted text is too short. If it" ++ [0x2019]
  ++ py "s a scanned PDF, text extraction may not work.".
Definition MSG_NOT_ALLOWED : str := py "File type not allowed. Upload a PDF or TXT.".


Definition STOPWORDS : list str :=
  map py
    ["a"; "an"; "and"; "are"; "as"; "at"; "be"; "by"; "for"; "from"; "has";
     "he"; "in"; "is"; "it"; "its"; "of"; "on"; "or"; "that"; "the"; "to";
     "was"; "were"; "will"; "with"; "you"; "your";
     "we"; "they"; "them"; "this"; "those"; "these"; "i"; "my"; "our"; "us";
     "not"; "can"; "could"; "should"; "would"; "may"; "might"; "about";
     "into"; "than"; "then"]%string.

Definition is_stopword (w : str) : bool := bool_decide (w ∈ STOPWORDS).

(** The filter of both frequency tables: [w not in STOPWORDS and
    len(w) > min_len]. *)
Definition qualifying (min_len : nat) (w : str) : bool :=
  negb (is_stopword w) && Nat.ltb min_len (length w).

Definition MSG_NO_TEXT : str :=
  py "Could not extract enough text to summarise. Try a different file or a clearer PDF.".

Definition MSG_TOO_LIMITED : str :=
  py "Text was extracted, but it was too limited to summarise.".

Definition templates : list str :=
  map py
    ["Define: '{term}'.";
     "Explain the importance of '{term}' in the topic.";
     "Give one example of how '{term}' is used.";
     "What are the benefits or risks related to '{term}'?";
     "How does '{term}' impact users or systems?"]%string.

Definition FALLBACK_QUESTIONS : list str :=
  map py
    ["Summarise the main idea of the document in your own words.";
     "List 3 key points from the document.";
     "What problem is being discussed and what solution is suggested?"]%string.

(** A scored sentence: [(score, idx, s)]. *)
Abbreviation scored := (nat * nat * str)%type.

Definition sc_score (x : scored) : nat := fst (fst x).
Definition sc_idx (x : scored) : nat := snd (fst x).
Definition sc_text (x : scored) : str := snd x.

(** [sum(freq[w] for w in s_words if w in freq)]. *)
Definition score_words (freq : counter) (s_words : list str) : nat :=
  foldr Nat.add 0%nat (map (counter_get freq) (List.filter (counter_mem freq) s_words)).

(** The loop of [generate_questions]: [questions] and [t_i] are the
    loop's variables, [break] returns the list built so far. *)
Fixpoint questions_loop (max_q : Z) (key_terms : list str)
    (questions : list str) (t_i : nat) : list str :=
  match key_terms with
  | [] => questions
  | term :: rest =>
      if (max_q <=? Z.of_nat (length questions))%Z then questions
      else questions_loop max_q rest
             (questions ++ [format_term (nth (t_i mod length templates) templates []) term])
             (S t_i)
  end.

(** ** Sample texts *)

(** The end-to-end example of the specification: three sentences. *)
Definition sample_text : str :=
  py "The quick brown fox jumps over the lazy dog. The dog barked loudly at the fox near the river. Foxes are clever animals known for agility.".

Definition sample_first : str := py "The quick brown fox jumps over the lazy dog.".
Definition sample_second : str := py "The dog barked loudly at the fox near the river.".
Definition sample_third : str := py "Foxes are clever animals known for agility.".

(** Three sentences of equal score. *)
Definition tied_text : str :=
  py "Alpha beta gamma delta epsilon. Alpha beta gamma delta epsilon! Alpha beta gamma delta epsilon?".

(** Stopwords only: one sentence of 40 characters, and one of 16. *)
Definition stopword_text : str := py "It is as it was and it will be as it is.".
Definition short_stopword_text : str := py "It is as it was.".

(** A clean text of 25 characters, one sentence, with a line break after
    a space. *)
Definition wrapped_text : str := py "The cat sat on a mat " ++ [0x0A] ++ py "now".

(** One word, ten times, among stopwords. *)
Definition repeated_word_text : str :=
  py "The alpha and the alpha: alpha, alpha, alpha! Alpha is the ALPHA of alpha; alpha or alpha?".
(** A text of more than 200 characters. *)
Definition long_text : str := sample_text ++ py " " ++ sample_text.

(** A stand-in for [secure_filename] that, as it does, removes the dots
    at the start of a filename. *)
Fixpoint drop_leading_dots (t : str) : str :=
  match t with
  | 46 :: t' => drop_leading_dots t'
  | _ => t
  end.


(** A line of 39 characters without sentence punctuation. *)
Definition unpunctuated_text : str := py "no punctuation here at all in this line".

(** Requests, and stand-ins for what [index] takes from outside. *)
Definition post_file (name : str) : request :=
  {| req_method := py "POST"; req_file := Some name |}.
Definition same_name (name : str) : str := name.
Definition blank_pages (path : str) : read_result (list (option str)) :=
  Content [None; Some (py "  "); None].
Definition long_content (path : str) : read_result str := Content long_text.



(** ** Predicates the properties are stated with *)

(** [has_adj p t]: some two neighbouring characters of [t] are both in
    the class [p], that is, [t] has a run of two or more [p]-characters. *)
Fixpoint has_adj (p : N -> bool) (t : str) : bool :=
  match t with
  | [] => false
  | c :: t' =>
      match t' with
      | [] => false
      | d :: _ => (p c && p d) || has_adj p t'
      end
  end.

(** Whether an optional character (the first or the last one of a
    string) is whitespace. *)
Definition space_at (o : option N) : bool := from_option isspace false o.

(** [maximal_runs p t ts]: [ts] lists, from left to right, the maximal
    runs of [p]-characters of [t]; every other character of [t] is a
    separator that belongs to no run. *)
Inductive maximal_runs (p : N -> bool) : str -> list str -> Prop :=
  | runs_nil : maximal_runs p [] []
  | runs_sep c t ts :
      p c = false -> maximal_runs p t ts -> maximal_runs p (c :: t) ts
  | runs_run r t ts :
      r <> [] -> forallb p r = true -> from_option p false (head t) = false ->
      maximal_runs p t ts -> maximal_runs p (r ++ t) (r :: ts).

(** [has_boundary t]: [t] contains a split point of the segmenter, a
    character of [[.!?]] followed by whitespace. *)
Fixpoint has_boundary (t : str) : bool :=
  match t with
  | [] => false
  | c :: t' =>
      match t' with
      | [] => false
      | d :: _ => (is_terminal c && isspace d) || has_boundary t'
      end
  end.

(** [sentence_of s t]: [s] is a sentence of the text [t], a substring
    without whitespace at its ends and without a split point inside, that
    starts at the start of [t] or after a split point, and ends at the end
    of [t] or at a split point. *)
Definition sentence_of (s t : str) : Prop :=
  exists pre post,
    t = pre ++ s ++ post /\
    (pre = [] \/
     exists p c w, pre = p ++ [c; w] /\ is_terminal c = true /\ isspace w = true) /\
    (post = [] \/
     exists w post', post = w :: post' /\ isspace w = true /\
                     from_option is_terminal false (last s) = true) /\
    has_boundary s = false /\
    space_at (head s) = false /\ space_at (last s) = false.

(** [in_order ss t]: the strings [ss] occur in [t] one after the other,
    without overlap, in the order of the list. *)
Inductive in_order : list str -> str -> Prop :=
  | in_order_nil t : in_order [] t
  | in_order_cons g s ss t : in_order ss t -> in_order (s :: ss) (g ++ s ++ t).

(** [ranks_before x y]: the scored sentence [x] has a higher score than
    [y], or the same score and a lower original index. *)
Definition ranks_before (x y : scored) : Prop :=
  (sc_score y < sc_score x)%nat \/
  (sc_score x = sc_score y /\ sc_idx x < sc_idx y)%nat.

(** The characters that are not whitespace. *)
Definition nonspace (c : N) : bool := negb (isspace c).


(** [only_spaces t]: the only whitespace character of [t] is the space
    U+0020. *)
Definition only_spaces (t : str) : bool :=
  forallb (fun c => nonspace c || (c =? 0x20)) t.


(** The number of occurrences of the word [w] in the list [ws]. *)
Definition count_word (w : str) (ws : list str) : nat :=
  length (List.filter (fun t => bool_decide (t = w)) ws).


Section Pipeline.

(** [str.lower] maps a non-ASCII code point through the Unicode case
    table, which is not part of the program: [lower_wide s i c] is the
    lowercase mapping of the non-ASCII code point [c] at position [i]
    of [s] (one or more code points; the position matters for the final
    form of the Greek sigma). *)
Variable lower_wide : str -> nat -> N -> str.

(** No lowercase mapping contains an ASCII capital letter. *)
Hypothesis lower_wide_no_upper :
  forall s i c d, 128 <= c -> In d (lower_wide s i c) -> is_ascii_upper d = false.

Definition lower_at (s : str) (i : nat) (c : N) : str :=
  if c <? 128 then [ascii_lower c] else lower_wide s i c.

Definition lower (s : str) : str := concat (imap (lower_at s) s).

Definition tokenize_words (text : str) : list str :=
  let words := findall_from is_word_char [] (lower text) in
  words.

(** [Counter(w for w in words if w not in STOPWORDS and len(w) > n)]. *)
Definition word_freq (min_len : nat) (text : str) : counter :=
  let words := tokenize_words text in
  Counter (List.filter (qualifying min_len) words).

Definition scored_sentences (freq : counter) (sentences : list str) : list scored :=
  imap (fun idx s => (score_words freq (tokenize_words s), idx, s)) sentences.

(** [scored] after [scored.sort(reverse=True, key=lambda x: x[0])]. *)
Definition ranked_sentences (freq : counter) (sentences : list str) : list scored :=
  sort_by_key sc_score true (scored_sentences freq sentences).

(** [top = scored[: min(num_sentences, len(scored))]]. *)
Definition top_sentences (freq : counter) (sentences : list str)
    (num_sentences : Z) : list scored :=
  let ranked := ranked_sentences freq sentences in
  slice_to (Z.min num_sentences (Z.of_nat (length ranked))) ranked.

Definition summarize_text (text : str) (num_sentences : Z) : str :=
  let sentences := split_sentences text in
  match sentences with
  | [] => MSG_NO_TEXT
  | _ =>
      let freq := word_freq 2 text in
      match freq with
      | [] => MSG_TOO_LIMITED
      | _ =>
          let top := top_sentences freq sentences num_sentences in
          let top_sorted := sort_by_key sc_idx false top in
          join (py " ") (map sc_text top_sorted)
      end
  end.

Definition key_terms (text : str) : list str :=
  map fst (most_common 10 (word_freq 3 text)).

Definition generate_questions (text : str) (max_q : Z) : list str :=
  let questions := questions_loop max_q (key_terms text) [] 0 in
  match questions with
  | [] => FALLBACK_QUESTIONS
  | _ => questions
  end.

Definition allowed_file (filename : str) : bool :=
  has_dot filename &&
  match rsplit_dot filename !! 1%nat with
  | Some ext => bool_decide (lower ext ∈ ALLOWED_EXTENSIONS)
  | None => false
  end.

Section Upload.

(** What [index] takes from outside the program: werkzeug's
    [secure_filename], and the content of the saved file as PyPDF2 and
    [open] give it (the texts of the pages of a PDF; the decoded text of
    a text file), or the exception they raise. *)
Variable secure_filename : str -> str.
Variable pdf_pages : str -> read_result (list (option str)).
Variable txt_content : str -> read_result str.

(** [index].  A [FileStorage] is true when its filename is not empty. *)
Definition index (r : request) : response :=
  if bool_decide (req_method r = py "POST") then
    match req_file r with
    | None => RedirectFlash SameUrl MSG_NO_FILE_PART
    | Some file_filename =>
        match file_filename with
        | [] => RedirectFlash SameUrl MSG_NO_FILE_SELECTED
        | _ =>
            if negb (bool_decide (file_filename = [])) && allowed_file file_filename then
              let filename := secure_filename file_filename in
              match rsplit_dot filename !! 1%nat with
              | None => RaiseIndexError
              | Some e =>
                  let ext := lower e in
                  let raw :=
                    if bool_decide (ext = py "pdf") then
                      match pdf_pages filename with
                      | Content pages => Content (read_pdf pages)
                      | Failed e => Failed e
                      end
                    else txt_content filename in
                  match raw with
                  | Failed e => RedirectFlash IndexUrl (MSG_READ_ERROR ++ e)
                  | Content raw_text =>
                      let text := clean_text raw_text in
                      if Nat.ltb (length text) 200 then RedirectFlash IndexUrl MSG_TOO_SHORT
                      else
                        let summary := summarize_text text 6 in
                        let questions := generate_questions text 6 in
                        RenderResult filename summary questions
                  end
              end
            else RedirectFlash SameUrl MSG_NOT_ALLOWED
        end
    end
  else RenderIndex.

End Upload.


(** ** Regex substitution of runs *)

Lemma has_adj_cons p x l :
  has_adj p (x :: l) = (p x && from_option p false (head l)) || has_adj p l.
Proof. destruct l; simpl; [rewrite andb_false_r|]; reflexivity. Qed.

Lemma has_adj_spec p l :
  has_adj p l = false ->
  forall a c d b, l = a ++ c :: d :: b -> p c && p d = false.
Proof.
  intros H a; revert l H.
  induction a as [|x a IH]; intros l H c d b ->; simpl in H.
  - apply orb_false_iff in H. tauto.
  - destruct (a ++ c :: d :: b) as [|y r] eqn:E.
    + destruct a; discriminate.
    + apply orb_false_iff in H. apply (IH _ (proj2 H) c d b). rewrite E. reflexivity.
Qed.

Lemma has_adj_app_r p a l : has_adj p (a ++ l) = false -> has_adj p l = false.
Proof.
  induction a as [|x a IH]; [tauto|].
  rewrite <- app_comm_cons, has_adj_cons. intros H.
  apply orb_false_iff in H. tauto.
Qed.

Lemma has_adj_app_l p l b : has_adj p (l ++ b) = false -> has_adj p l = false.
Proof.
  induction l as [|x l IH]; [reflexivity|].
  rewrite <- app_comm_cons, !has_adj_cons. intros H.
  apply orb_false_iff in H. destruct H as [H1 H2].
  rewrite (IH H2), orb_false_r.
  destruct l; simpl in *; [apply andb_false_r | exact H1].
Qed.

Lemma sub_runs2_adj p rep t :
  forall b,
    has_adj p (sub_runs2 p rep b t) = false /\
    (b = true -> from_option p false (head (sub_runs2 p rep b t)) = false).
Proof.
  induction t as [|c t IH]; intros b; [simpl; tauto|].
  simpl. destruct (p c) eqn:Hc.
  - destruct b.
    + apply IH.
    + split; [|discriminate].
      destruct t as [|d t']; [reflexivity|].
      destruct (p d) eqn:Hd.
      * destruct (IH true) as [H1 H2].
        rewrite has_adj_cons, H1, (H2 eq_refl), andb_false_r. reflexivity.
      * destruct (IH false) as [H1 _].
        rewrite has_adj_cons, H1. simpl. rewrite Hd. simpl.
        rewrite Hd, andb_false_r. reflexivity.
  - destruct (IH false) as [H1 _].
    rewrite has_adj_cons, H1, Hc. simpl. tauto.
Qed.

Lemma sub_runs2_id p rep t :
  has_adj p t = false -> sub_runs2 p rep false t = t.
Proof.
  induction t as [|c t IH]; [reflexivity|].
  rewrite has_adj_cons. intros H. apply orb_false_iff in H. destruct H as [H1 H2].
  simpl. destruct (p c) eqn:Hc.
  - destruct t as [|d t']; [reflexivity|].
    simpl in H1. rewrite H1. f_equal. apply IH, H2.
  - f_equal. apply IH, H2.
Qed.

Lemma sub_runs2_Forall (P : N -> Prop) p rep t :
  P rep -> Forall P t -> forall b, Forall P (sub_runs2 p rep b t).
Proof.
  intros Hrep. induction 1 as [|c t Hc Ht IH]; intros b; simpl; [constructor|].
  destruct (p c).
  - destruct b; [apply IH|].
    destruct t as [|d t']; [repeat constructor; assumption|].
    destruct (p d); constructor; auto.
  - constructor; auto.
Qed.

Lemma sub_runs2_head_other q p rep t :
  (forall c, q c = true -> p c = false) -> q rep = false ->
  from_option q false (head (sub_runs2 p rep false t)) = true ->
  from_option q false (head t) = true.
Proof.
  intros Hqp Hrep. destruct t as [|c t]; [tauto|].
  simpl. destruct (p c) eqn:Hc.
  - assert (q c = false) as Hqc
        by (destruct (q c) eqn:E; [rewrite (Hqp _ E) in Hc; discriminate | reflexivity]).
    destruct t as [|d t']; simpl; [congruence|].
    destruct (p d); simpl; congruence.
  - simpl. tauto.
Qed.

Lemma sub_runs2_other_adj q p rep t :
  (forall c, q c = true -> p c = false) -> q rep = false ->
  has_adj q t = false ->
  forall b, has_adj q (sub_runs2 p rep b t) = false.
Proof.
  intros Hqp Hrep. induction t as [|c t IH]; [reflexivity|].
  rewrite has_adj_cons. intros H. apply orb_false_iff in H. destruct H as [H1 H2].
  intros b. simpl. destruct (p c) eqn:Hc.
  - assert (q c = false) as Hqc
        by (destruct (q c) eqn:E; [rewrite (Hqp _ E) in Hc; discriminate | reflexivity]).
    destruct b; [apply IH, H2|].
    destruct t as [|d t']; [reflexivity|].
    destruct (p d); rewrite has_adj_cons, (IH H2); [rewrite Hrep | rewrite Hqc]; reflexivity.
  - rewrite has_adj_cons, (IH H2), orb_false_r.
    destruct (q c) eqn:Hqc; [|reflexivity]. simpl in *.
    destruct (from_option q false (head (sub_runs2 p rep false t))) eqn:E; [|reflexivity].
    apply (sub_runs2_head_other q p rep t Hqp Hrep) in E. congruence.
Qed.
(** ** Stripping *)

Lemma lstrip_suffix t : exists a, t = a ++ lstrip t.
Proof.
  induction t as [|c t [a IH]]; [exists []; reflexivity|].
  simpl. destruct (isspace c).
  - exists (c :: a). simpl. f_equal. exact IH.
  - exists []. reflexivity.
Qed.

Lemma rstrip_prefix t : exists b, t = rstrip t ++ b.
Proof.
  unfold rstrip. destruct (lstrip_suffix (reverse t)) as [a Ha].
  exists (reverse a).
  rewrite <- reverse_app, <- Ha, reverse_involutive. reflexivity.
Qed.

Lemma strip_infix t : exists a b, t = a ++ strip t ++ b.
Proof.
  destruct (lstrip_suffix t) as [a Ha].
  destruct (rstrip_prefix (lstrip t)) as [b Hb].
  exists a, b. unfold strip. rewrite <- Hb. exact Ha.
Qed.

Lemma lstrip_head t : space_at (head (lstrip t)) = false.
Proof.
  induction t as [|c t IH]; [reflexivity|].
  simpl. destruct (isspace c) eqn:Hc; [exact IH | exact Hc].
Qed.

Lemma rstrip_last t : space_at (last (rstrip t)) = false.
Proof. unfold rstrip. rewrite last_reverse. apply lstrip_head. Qed.

Lemma lstrip_id t : space_at (head t) = false -> lstrip t = t.
Proof. destruct t as [|c t]; [reflexivity|]. simpl. intros ->. reflexivity. Qed.

Lemma rstrip_id t : space_at (last t) = false -> rstrip t = t.
Proof.
  intros H. unfold rstrip. rewrite lstrip_id.
  - apply reverse_involutive.
  - rewrite head_reverse. exact H.
Qed.

Lemma strip_head t : space_at (head (strip t)) = false.
Proof.
  unfold strip. destruct (rstrip_prefix (lstrip t)) as [b Hb].
  destruct (rstrip (lstrip t)) as [|c r] eqn:E; [reflexivity|].
  pose proof (lstrip_head t) as H. rewrite Hb in H. exact H.
Qed.

Lemma strip_last t : space_at (last (strip t)) = false.
Proof. apply rstrip_last. Qed.

Lemma strip_id t :
  space_at (head t) = false -> space_at (last t) = false -> strip t = t.
Proof.
  intros Hh Hl. unfold strip. rewrite (lstrip_id t Hh). apply rstrip_id, Hl.
Qed.

Lemma strip_strip t : strip (strip t) = strip t.
Proof. apply strip_id; [apply strip_head | apply strip_last]. Qed.

Lemma strip_Forall (P : N -> Prop) t : Forall P t -> Forall P (strip t).
Proof.
  destruct (strip_infix t) as (a & b & E). intros H. rewrite E in H.
  apply Forall_app in H. destruct H as [_ H].
  apply Forall_app in H. tauto.
Qed.

Lemma strip_adj p t : has_adj p t = false -> has_adj p (strip t) = false.
Proof.
  destruct (strip_infix t) as (a & b & E). intros H. rewrite E in H.
  apply has_adj_app_r in H. apply has_adj_app_l in H. exact H.
Qed.

(** ** [clean_text] *)

Lemma replace_char_Forall a b t :
  a <> b -> Forall (fun c => c <> a) (replace_char a b t).
Proof.
  intros Hab. unfold replace_char. apply List.Forall_forall. intros x Hx.
  apply in_map_iff in Hx. destruct Hx as (c & <- & _).
  destruct (N.eqb_spec c a); congruence.
Qed.

Lemma replace_char_id a b t :
  Forall (fun c => c <> a) t -> replace_char a b t = t.
Proof.
  unfold replace_char. induction 1 as [|c t Hc _ IH]; [reflexivity|].
  simpl. rewrite IH. destruct (N.eqb_spec c a); congruence.
Qed.

(** A string without carriage return, without a run of newlines or of
    blanks, and without whitespace at either end is left as it is. *)
Lemma clean_text_fixed (t : str) :
  Forall (fun c => c <> 0x0D) t ->
  has_adj is_newline t = false ->
  has_adj is_hspace t = false ->
  space_at (head t) = false ->
  space_at (last t) = false ->
  clean_text t = t.
Proof.
  intros Hcr Hnl Hsp Hh Hl. unfold clean_text.
  rewrite (replace_char_id _ _ _ Hcr), (sub_runs2_id _ _ _ Hnl),
    (sub_runs2_id _ _ _ Hsp).
  apply strip_id; assumption.
Qed.

Lemma clean_text_no_cr (x : str) : Forall (fun c => c <> 0x0D) (clean_text x).
Proof.
  unfold clean_text. apply strip_Forall.
  apply sub_runs2_Forall; [discriminate|].
  apply sub_runs2_Forall; [discriminate|].
  apply replace_char_Forall. discriminate.
Qed.

Lemma clean_text_newlines (x : str) : has_adj is_newline (clean_text x) = false.
Proof.
  unfold clean_text. apply strip_adj.
  apply sub_runs2_other_adj.
  - intros c Hc. unfold is_newline in Hc. apply N.eqb_eq in Hc. subst c. reflexivity.
  - reflexivity.
  - apply sub_runs2_adj.
Qed.

Lemma clean_text_blanks (x : str) : has_adj is_hspace (clean_text x) = false.
Proof. unfold clean_text. apply strip_adj. apply sub_runs2_adj. Qed.

(** C5: the output of [clean_text] has no run of two or more newlines,
    no run of two or more blanks (space or tab), and no whitespace at
    its start or at its end; the empty string is mapped to the empty
    string. *)
Theorem clean_text_invariant (x : str) :
  has_adj is_newline (clean_text x) = false /\
  has_adj is_hspace (clean_text x) = false /\
  space_at (head (clean_text x)) = false /\
  space_at (last (clean_text x)) = false /\
  clean_text [] = [].
Proof.
  repeat split.
  - apply clean_text_newlines.
  - apply clean_text_blanks.
  - apply strip_head.
  - apply strip_last.
Qed.

(** C4: [clean_text] is idempotent. *)
Theorem clean_text_idempotent (x : str) :
  clean_text (clean_text x) = clean_text x.
Proof.
  apply clean_text_fixed.
  - apply clean_text_no_cr.
  - apply clean_text_newlines.
  - apply clean_text_blanks.
  - apply strip_head.
  - apply strip_last.
Qed.

(** ** [tokenize_words] *)

Lemma findall_from_runs p t :
  forall acc, forallb p acc = true ->
    maximal_runs p (acc ++ t) (findall_from p acc t).
Proof.
  induction t as [|c t IH]; intros acc Hacc; simpl.
  - rewrite app_nil_r. destruct acc as [|a acc]; [constructor|].
    rewrite <- (app_nil_r (a :: acc)) at 1.
    apply runs_run; [discriminate | assumption | reflexivity | constructor].
  - destruct (p c) eqn:Hc.
    + replace (acc ++ c :: t) with ((acc ++ [c]) ++ t)
        by (rewrite <- app_assoc; reflexivity).
      apply IH. rewrite forallb_app, Hacc. simpl. rewrite Hc. reflexivity.
    + assert (maximal_runs p (c :: t) (findall_from p [] t)) as Hrest
          by (apply runs_sep; [exact Hc | apply (IH [] eq_refl)]).
      destruct acc as [|a acc]; [exact Hrest|].
      apply runs_run; [discriminate | assumption | simpl; exact Hc | exact Hrest].
Qed.

Lemma run_split_unique p (r1 t1 : str) :
  forall r2 t2 : str,
    forallb p r1 = true -> forallb p r2 = true ->
    from_option p false (head t1) = false ->
    from_option p false (head t2) = false ->
    r1 ++ t1 = r2 ++ t2 -> r1 = r2 /\ t1 = t2.
Proof.
  induction r1 as [|a r1 IH]; intros r2 t2 H1 H2 Ht1 Ht2 E.
  - destruct r2 as [|b r2]; [tauto|]. simpl in *. subst t1.
    apply andb_true_iff in H2. simpl in Ht1. destruct H2 as [H2 _]. congruence.
  - destruct r2 as [|b r2]; simpl in *.
    + subst t2. apply andb_true_iff in H1. simpl in Ht2. destruct H1 as [H1 _]. congruence.
    + injection E as -> E.
      apply andb_true_iff in H1. apply andb_true_iff in H2.
      destruct (IH r2 t2) as [-> ->]; tauto.
Qed.

Lemma maximal_runs_unique p t ts1 :
  maximal_runs p t ts1 -> forall ts2, maximal_runs p t ts2 -> ts1 = ts2.
Proof.
  induction 1 as [|c t ts1 Hc _ IH|r t ts1 Hr Hp Hh _ IH]; intros ts2 H2.
  - inversion H2 as [| |r' t' ts' Hr' _ _ _ E]; [reflexivity|].
    destruct r'; [congruence | discriminate].
  - inversion H2 as [|c' t' ts' _ H' |r' t' ts' Hr' Hp' _ _ E]; subst.
    + apply IH, H'.
    + destruct r' as [|a r']; [congruence|]. simpl in *.
      injection E as -> _. apply andb_true_iff in Hp'. destruct Hp'. congruence.
  - inversion H2 as [E|c' t' ts' Hc' _ E|r' t' ts' Hr' Hp' Hh' H' E]; subst.
    + destruct r; [congruence | discriminate].
    + destruct r as [|a r]; [congruence|]. simpl in *.
      injection E as -> _. apply andb_true_iff in Hp. destruct Hp. congruence.
    + destruct (run_split_unique p r' t' r t Hp' Hp Hh' Hh E) as [-> ->].
      f_equal. apply IH, H'.
Qed.

Lemma maximal_runs_ext p q t ts :
  maximal_runs p t ts ->
  Forall (fun c => p c = q c) t ->
  maximal_runs q t ts.
Proof.
  induction 1 as [|c t ts Hc _ IH|r t ts Hr Hp Hh _ IH]; intros Hall.
  - constructor.
  - inversion Hall as [|? ? E Hall']; subst.
    apply runs_sep; [congruence | apply IH, Hall'].
  - apply Forall_app in Hall. destruct Hall as [Hall1 Hall2].
    apply runs_run; [assumption | | | apply IH, Hall2].
    + clear -Hp Hall1. induction Hall1 as [|a r E _ IH]; [reflexivity|].
      simpl in *. apply andb_true_iff in Hp. destruct Hp as [Ha Hp].
      rewrite <- E, Ha. apply IH, Hp.
    + destruct Hall2 as [|c t E _]; simpl in *; congruence.
Qed.

Lemma concat_imap_Forall {A} (P : N -> Prop) (l : list A) :
  forall f : nat -> A -> str,
    (forall i c, Forall P (f i c)) -> Forall P (concat (imap f l)).
Proof.
  induction l as [|x l IH]; intros f Hf; simpl; [constructor|].
  apply Forall_app. split; [apply Hf|]. apply IH. intros i c. apply Hf.
Qed.

Lemma ascii_lower_not_upper c : is_ascii_upper (ascii_lower c) = false.
Proof.
  unfold ascii_lower. destruct (is_ascii_upper c) eqn:E; [|exact E].
  unfold is_ascii_upper in *. apply andb_true_iff in E. destruct E as [E1 E2].
  apply N.leb_le in E1. apply N.leb_le in E2.
  apply andb_false_iff. right. apply N.leb_gt. lia.
Qed.

Lemma lower_no_upper (s : str) :
  Forall (fun d => is_ascii_upper d = false) (lower s).
Proof.
  unfold lower. apply concat_imap_Forall. intros i c. unfold lower_at.
  destruct (N.ltb_spec c 128).
  - repeat constructor. apply ascii_lower_not_upper.
  - apply List.Forall_forall. intros d Hd. exact (lower_wide_no_upper s i c d H Hd).
Qed.

Lemma word_char_token_char c :
  is_ascii_upper c = false -> is_word_char c = is_token_char c.
Proof.
  unfold is_ascii_upper, is_word_char, is_token_char. intros ->.
  rewrite orb_false_r. reflexivity.
Qed.

Lemma tokenize_words_runs (text : str) :
  maximal_runs is_token_char (lower text) (tokenize_words text).
Proof.
  apply maximal_runs_ext with (p := is_word_char).
  - apply (findall_from_runs is_word_char (lower text) [] eq_refl).
  - eapply Forall_impl; [apply lower_no_upper|].
    intros c Hc. apply word_char_token_char, Hc.
Qed.

(** C7: the tokens of a text are the maximal runs of characters in
    [[a-z0-9']] of the lowercased text, from left to right, and nothing
    else; ["Hello, World! 123"] has the tokens ["hello"], ["world"] and
    ["123"], and the empty text has none. *)
Theorem tokenize_words_maximal_runs (text : str) :
  maximal_runs is_token_char (lower text) (tokenize_words text) /\
  (forall ts, maximal_runs is_token_char (lower text) ts -> ts = tokenize_words text) /\
  tokenize_words (py "Hello, World! 123") = map py ["hello"; "world"; "123"]%string /\
  tokenize_words [] = [].
Proof.
  split; [apply tokenize_words_runs|].
  split; [|split; reflexivity].
  intros ts Hts. symmetry.
  apply (maximal_runs_unique _ _ _ (tokenize_words_runs text) _ Hts).
Qed.

(** ** [split_sentences] *)

Lemma in_order_prepend g ss t : in_order ss t -> in_order ss (g ++ t).
Proof.
  intros H. destruct H as [t|g' s ss t H]; [constructor|].
  rewrite app_assoc. constructor. exact H.
Qed.

Lemma split_from_in_order t :
  forall st, in_order (split_from st t) (split_acc st ++ t).
Proof.
  induction t as [|c t IH]; intros st.
  - destruct st as [prev acc|]; simpl.
    + apply (in_order_cons [] acc [] []), in_order_nil.
    + apply (in_order_cons [] [] [] []), in_order_nil.
  - destruct st as [prev acc|]; simpl.
    + destruct (prev && isspace c).
      * apply (in_order_cons [] acc _ (c :: t)).
        apply (in_order_prepend [c]), (IH Gap).
      * specialize (IH (Piece (is_terminal c) (acc ++ [c]))). simpl in IH.
        rewrite <- app_assoc in IH. exact IH.
    + destruct (isspace c).
      * apply (in_order_prepend [c]), (IH Gap).
      * apply (IH (Piece (is_terminal c) [c])).
Qed.

Lemma in_order_strip_filter (f : str -> bool) ps t :
  in_order ps t -> in_order (map strip (List.filter f ps)) t.
Proof.
  induction 1 as [t|g s ss t _ IH]; [constructor|].
  simpl. destruct (f s).
  - destruct (strip_infix s) as (a & b & E). simpl.
    rewrite E at 2. rewrite <- !app_assoc, (app_assoc g a).
    constructor. apply in_order_prepend, IH.
  - apply in_order_prepend, in_order_prepend, IH.
Qed.

Lemma split_from_run u :
  forall st v x,
    In x (split_from (split_run st u) v) -> In x (split_from st (u ++ v)).
Proof.
  induction u as [|c u IH]; intros st v x H; [exact H|].
  simpl. apply IH in H. destruct st as [prev acc|]; simpl in *.
  - destruct (prev && isspace c); [right|]; exact H.
  - destruct (isspace c); exact H.
Qed.

Lemma terminal_not_space c : is_terminal c = true -> isspace c = false.
Proof.
  unfold is_terminal. intros H.
  apply orb_true_iff in H. destruct H as [H|H];
    [apply orb_true_iff in H; destruct H as [H|H]|];
    apply N.eqb_eq in H; subst c; reflexivity.
Qed.

Lemma split_run_boundary st p c w :
  is_terminal c = true -> isspace w = true -> split_run st (p ++ [c; w]) = Gap.
Proof.
  intros Hc Hw. unfold split_run. rewrite foldl_app. simpl.
  pose proof (terminal_not_space c Hc) as Hs.
  destruct (foldl split_next st p) as [prev acc|]; simpl;
    rewrite Hs, ?andb_false_r, Hc; simpl; rewrite Hw; reflexivity.
Qed.

Lemma split_from_piece (s : str) :
  forall prev acc post,
    has_boundary s = false ->
    prev && space_at (head s) = false ->
    (post = [] \/
     exists w post', post = w :: post' /\ isspace w = true /\
                     from_option is_terminal prev (last s) = true) ->
    In (acc ++ s) (split_from (Piece prev acc) (s ++ post)).
Proof.
  induction s as [|c s IH]; intros prev acc post Hb Hh Hpost.
  - rewrite app_nil_r. simpl.
    destruct Hpost as [->|(w & post' & -> & Hw & Hprev)]; [left; reflexivity|].
    simpl in Hprev. subst prev. simpl. rewrite Hw. left. reflexivity.
  - simpl in Hh. simpl. rewrite Hh.
    replace (acc ++ c :: s) with ((acc ++ [c]) ++ s)
      by (rewrite <- app_assoc; reflexivity).
    apply IH.
    + destruct s as [|d s']; [reflexivity|].
      simpl in Hb. apply orb_false_iff in Hb. destruct Hb as [_ Hb]. exact Hb.
    + destruct s as [|d s']; [apply andb_false_r|].
      simpl in Hb. apply orb_false_iff in Hb. destruct Hb as [Hb _]. exact Hb.
    + destruct Hpost as [->|(w & post' & -> & Hw & Hl)]; [left; reflexivity|].
      right. exists w, post'. repeat split; [exact Hw|].
      destruct s as [|d s']; [exact Hl|].
      rewrite last_cons in Hl. destruct (last (d :: s')) eqn:E; [exact Hl|].
      apply last_None in E. discriminate.
Qed.

Lemma sentence_of_split (s t : str) :
  sentence_of s t -> s <> [] -> In s (re_split_sentences t).
Proof.
  intros (pre & post & -> & Hpre & Hpost & Hb & Hh & _) Hne.
  unfold re_split_sentences.
  assert (Hpost' : forall prev, post = [] \/
     exists w post', post = w :: post' /\ isspace w = true /\
                     from_option is_terminal prev (last s) = true).
  { intros prev. destruct Hpost as [->|(w & post' & -> & Hw & Hl)]; [left; reflexivity|].
    right. exists w, post'. repeat split; [exact Hw|].
    destruct (last s); [exact Hl | discriminate]. }
  destruct Hpre as [->|(p & c & w & -> & Hc & Hw)].
  - apply (split_from_piece s false [] post Hb eq_refl (Hpost' false)).
  - apply split_from_run. rewrite (split_run_boundary _ p c w Hc Hw).
    destruct s as [|d s']; [congruence|].
    simpl in Hh. simpl. rewrite Hh.
    apply (split_from_piece s' (is_terminal d) [d] post).
    + destruct s' as [|e s'']; [reflexivity|].
      simpl in Hb. apply orb_false_iff in Hb. tauto.
    + destruct s' as [|e s'']; [apply andb_false_r|].
      simpl in Hb. apply orb_false_iff in Hb. tauto.
    + destruct Hpost as [->|(w' & post' & -> & Hw' & Hl)]; [left; reflexivity|].
      right. exists w', post'. repeat split; [exact Hw'|].
      destruct s' as [|e s'']; [exact Hl|].
      rewrite last_cons in Hl. destruct (last (e :: s'')) eqn:E; [exact Hl|].
      apply last_None in E. discriminate.
Qed.

Lemma split_sentences_elem (text s : str) :
  In s (split_sentences text) ->
  (25 <= length s)%nat /\ space_at (head s) = false /\ space_at (last s) = false.
Proof.
  unfold split_sentences. destruct (normalize_spaces text) as [|c t]; [intros []|].
  intros H. apply in_map_iff in H. destruct H as (s0 & <- & H).
  apply filter_In in H. destruct H as [_ H]. apply Nat.leb_le in H.
  split; [exact H|]. split; [apply strip_head | apply strip_last].
Qed.

Lemma split_sentences_in_order (text : str) :
  in_order (split_sentences text) (normalize_spaces text).
Proof.
  unfold split_sentences. destruct (normalize_spaces text) as [|c t] eqn:E; [constructor|].
  apply in_order_strip_filter.
  apply (split_from_in_order (c :: t) (Piece false [])).
Qed.

(** C6, amended: when the text, its whitespace runs collapsed to single
    spaces, contains a sentence [s] of at least 25 characters, [split_sentences] returns a
    list that is not empty and contains [s]; every string it returns has
    at least 25 characters and no whitespace at its start or its end;
    and the strings returned occur in the text in the order of the
    list. *)
Theorem split_sentences_spec (text s : str)
    (Hs : sentence_of s (normalize_spaces text))
    (Hlen : (25 <= length s)%nat) :
  split_sentences text <> [] /\
  In s (split_sentences text) /\
  (forall s', In s' (split_sentences text) ->
     (25 <= length s')%nat /\
     space_at (head s') = false /\ space_at (last s') = false) /\
  in_order (split_sentences text) (normalize_spaces text).
Proof.
  assert (In s (split_sentences text)) as Hin.
  { assert (s <> []) as Hne by (destruct s; [simpl in Hlen; lia | discriminate]).
    pose proof (sentence_of_split s _ Hs Hne) as H.
    destruct Hs as (pre & post & E & _ & _ & _ & Hh & Hl).
    unfold split_sentences. destruct (normalize_spaces text) as [|c t] eqn:Et.
    - destruct pre; [destruct s; [congruence | discriminate] | discriminate].
    - apply in_map_iff. exists s. split; [apply strip_id; assumption|].
      apply filter_In. split; [exact H|].
      rewrite (strip_id s Hh Hl). apply Nat.leb_le, Hlen. }
  split; [intros E; rewrite E in Hin; exact Hin|].
  split; [exact Hin|].
  split; [intros s'; apply split_sentences_elem | apply split_sentences_in_order].
Qed.

(** ** The stable sort *)

Lemma insert_by_perm {A} (before : A -> A -> bool) x l :
  insert_by before x l ≡ₚ x :: l.
Proof.
  induction l as [|y l IH]; simpl; [reflexivity|].
  destruct (before x y); [reflexivity|].
  rewrite IH. apply Permutation_swap.
Qed.

Lemma sort_by_key_perm {A} (key : A -> nat) reverse l :
  sort_by_key key reverse l ≡ₚ l.
Proof.
  unfold sort_by_key. induction l as [|x l IH]; simpl; [reflexivity|].
  rewrite insert_by_perm, IH. reflexivity.
Qed.

Lemma insert_by_keeps_order {A} (key : A -> nat) (reverse : bool) (k : nat) x l :
  List.filter (fun z => Nat.eqb (key z) k)
    (insert_by (fun x y => if reverse then Nat.leb (key y) (key x)
                           else Nat.leb (key x) (key y)) x l)
  = List.filter (fun z => Nat.eqb (key z) k) (x :: l).
Proof.
  induction l as [|y l IH]; [reflexivity|].
  cbn [insert_by].
  destruct (if reverse then Nat.leb (key y) (key x) else Nat.leb (key x) (key y)) eqn:E;
    [reflexivity|].
  assert (key y <> key x) as Hne.
  { destruct reverse; apply Nat.leb_gt in E; lia. }
  cbn [List.filter] in *. rewrite IH.
  destruct (Nat.eqb_spec (key y) k), (Nat.eqb_spec (key x) k); congruence.
Qed.

(** The sort is stable, in both directions: the elements of any one key
    keep the order they have in the input. *)
Lemma sort_by_key_keeps_order {A} (key : A -> nat) reverse (k : nat) l :
  List.filter (fun x => Nat.eqb (key x) k) (sort_by_key key reverse l)
  = List.filter (fun x => Nat.eqb (key x) k) l.
Proof.
  unfold sort_by_key. induction l as [|x l IH]; [reflexivity|].
  cbn [foldr]. rewrite insert_by_keeps_order.
  cbn [List.filter]. rewrite IH. reflexivity.
Qed.

(** Ascending sort: the result is ordered by the key. *)
Lemma sort_by_key_sorted {A} (key : A -> nat) l :
  StronglySorted (fun x y => (key x <= key y)%nat) (sort_by_key key false l).
Proof.
  unfold sort_by_key. induction l as [|x l IH]; simpl; [constructor|].
  revert IH. generalize (foldr (insert_by (fun x y => Nat.leb (key x) (key y))) [] l).
  clear l. intros l. induction 1 as [|y l Hl IH Hy]; simpl.
  - repeat constructor.
  - destruct (Nat.leb_spec (key x) (key y)).
    + constructor; [constructor; assumption|].
      constructor; [assumption|].
      eapply Forall_impl; [exact Hy|]. simpl. intros z Hz. lia.
    + constructor; [exact IH|].
      rewrite insert_by_perm. constructor; [lia | exact Hy].
Qed.

(** Descending sort of a list given in ascending order of a secondary
    key [idx]: elements of equal key stay in ascending order of [idx]. *)
Lemma sort_by_key_stable {A} (key idx : A -> nat) l :
  StronglySorted (fun x y => (idx x < idx y)%nat) l ->
  StronglySorted
    (fun x y => (key y < key x)%nat \/ (key x = key y /\ idx x < idx y)%nat)
    (sort_by_key key true l).
Proof.
  unfold sort_by_key. induction 1 as [|x l _ IH Hx]; simpl; [constructor|].
  assert (Forall (fun y => (idx x < idx y)%nat)
            (foldr (insert_by (fun x y => Nat.leb (key y) (key x))) [] l)) as Hx'.
  { pose proof (sort_by_key_perm key true l) as Hp. unfold sort_by_key in Hp.
    rewrite Hp. exact Hx. }
  revert IH Hx'.
  generalize (foldr (insert_by (fun x y => Nat.leb (key y) (key x))) [] l).
  clear. intros l. induction 1 as [|y l Hl IH Hy]; intros Hx; simpl.
  - repeat constructor.
  - inversion Hx as [|? ? Hxy Hxl]; subst.
    destruct (Nat.leb_spec (key y) (key x)).
    + constructor; [constructor; assumption|].
      constructor; [lia|].
      rewrite List.Forall_forall in Hy, Hxl. apply List.Forall_forall.
      intros z Hz. specialize (Hy z Hz). specialize (Hxl z Hz). lia.
    + constructor; [apply IH, Hxl|].
      rewrite insert_by_perm. constructor; [lia | exact Hy].
Qed.

(** A list ordered by a key, whose elements are taken (with their
    multiplicity) from a list strictly ordered by that key, is a
    sublist of it. *)
Lemma sorted_submseteq_sublist {A} (key : A -> nat) (L : list A) :
  StronglySorted (fun x y => (key x < key y)%nat) L ->
  forall l, StronglySorted (fun x y => (key x <= key y)%nat) l ->
    l ⊆+ L -> sublist l L.
Proof.
  induction 1 as [|x L _ IH Hx]; intros l Hl Hsub.
  - apply submseteq_nil_r in Hsub. subst l. constructor.
  - apply submseteq_cons_r in Hsub. destruct Hsub as [Hsub|(l' & Hp & Hsub)].
    + apply sublist_cons, IH; assumption.
    + destruct l as [|y l0]; [apply sublist_nil_l|].
      assert (y = x) as ->.
      { assert (x ∈ y :: l0) as Hin by (rewrite Hp; left).
        assert (y ∈ x :: l') as Hin' by (rewrite <- Hp; left).
        apply elem_of_cons in Hin'. destruct Hin' as [E|Hin']; [exact E|].
        apply (elem_of_submseteq _ _ _ Hin') in Hsub.
        rewrite List.Forall_forall in Hx. apply list_elem_of_In in Hsub.
        specialize (Hx y Hsub).
        apply elem_of_cons in Hin. destruct Hin as [E|Hin]; [congruence|].
        inversion Hl as [|? ? _ Hy]; subst.
        rewrite List.Forall_forall in Hy. apply list_elem_of_In in Hin.
        specialize (Hy x Hin). lia. }
      apply Permutation_cons_inv in Hp.
      apply sublist_skip, IH.
      * inversion Hl; assumption.
      * rewrite Hp. exact Hsub.
Qed.

Lemma slice_to_take {A} (k : Z) (l : list A) : exists m, slice_to k l = take m l.
Proof. unfold slice_to. destruct (k <? 0)%Z; eexists; reflexivity. Qed.

Lemma slice_to_length {A} (k : Z) (l : list A) :
  (0 <= k)%Z -> length (slice_to k l) = Nat.min (Z.to_nat k) (length l).
Proof.
  intros Hk. unfold slice_to. destruct (Z.ltb_spec k 0); [lia|].
  apply length_take.
Qed.

(** ** [summarize_text] *)

Lemma imap_idx_sorted (g : str -> nat) (l : list str) :
  forall k,
    StronglySorted (fun x y : scored => (sc_idx x < sc_idx y)%nat)
      (imap (fun i s => (g s, (k + i)%nat, s)) l) /\
    Forall (fun x : scored => (k <= sc_idx x)%nat)
      (imap (fun i s => (g s, (k + i)%nat, s)) l).
Proof.
  induction l as [|s l IH]; intros k; simpl; [split; constructor|].
  destruct (IH (S k)) as [H1 H2].
  rewrite (imap_ext _ (fun i s => (g s, (S k + i)%nat, s)))
    by (intros i x _; simpl; do 2 f_equal; lia).
  split; constructor; try assumption.
  - eapply Forall_impl; [exact H2|]. unfold sc_idx. simpl. intros x Hx. lia.
  - unfold sc_idx. simpl. lia.
  - eapply Forall_impl; [exact H2|]. unfold sc_idx. simpl. intros x Hx. lia.
Qed.

Lemma scored_sentences_sorted freq sentences :
  StronglySorted (fun x y => (sc_idx x < sc_idx y)%nat)
    (scored_sentences freq sentences).
Proof.
  apply (imap_idx_sorted (fun s => score_words freq (tokenize_words s)) sentences 0).
Qed.

Lemma imap_idx_text (g : str -> nat) (l : list str) :
  forall k, map sc_text (imap (fun i s => (g s, (k + i)%nat, s)) l) = l.
Proof.
  induction l as [|s l IH]; intros k; [reflexivity|].
  simpl. f_equal. rewrite <- (IH (S k)) at 2. f_equal.
  apply imap_ext. intros i x _. simpl. do 2 f_equal. lia.
Qed.

Lemma scored_sentences_text freq sentences :
  map sc_text (scored_sentences freq sentences) = sentences.
Proof.
  apply (imap_idx_text (fun s => score_words freq (tokenize_words s)) sentences 0).
Qed.

Lemma scored_sentences_length freq sentences :
  length (scored_sentences freq sentences) = length sentences.
Proof. apply length_imap. Qed.

Lemma ranked_sentences_sorted freq sentences :
  StronglySorted ranks_before (ranked_sentences freq sentences).
Proof.
  apply (sort_by_key_stable sc_score sc_idx), scored_sentences_sorted.
Qed.

Lemma ranks_before_asym x y : ranks_before x y -> ranks_before y x -> False.
Proof. unfold ranks_before. lia. Qed.

Lemma top_sentences_submseteq freq sentences n :
  top_sentences freq sentences n ⊆+ scored_sentences freq sentences.
Proof.
  unfold top_sentences.
  destruct (slice_to_take
              (Z.min n (Z.of_nat (length (ranked_sentences freq sentences))))
              (ranked_sentences freq sentences)) as [m ->].
  etransitivity; [apply sublist_submseteq, sublist_take|].
  unfold ranked_sentences. rewrite sort_by_key_perm. reflexivity.
Qed.

Lemma top_sentences_length freq sentences n :
  (0 <= n)%Z ->
  Z.of_nat (length (top_sentences freq sentences n)) =
  Z.min n (Z.of_nat (length sentences)).
Proof.
  intros Hn. unfold top_sentences. rewrite slice_to_length by lia.
  unfold ranked_sentences. rewrite (Permutation_length (sort_by_key_perm _ _ _)).
  rewrite scored_sentences_length. lia.
Qed.

(** The sentences of the summary, in the order of the summary. *)
Lemma summary_sublist freq sentences n :
  sublist
    (map sc_text (sort_by_key sc_idx false (top_sentences freq sentences n)))
    sentences.
Proof.
  rewrite <- (scored_sentences_text freq sentences) at 2.
  apply (fmap_sublist sc_text).
  apply (sorted_submseteq_sublist sc_idx).
  - apply scored_sentences_sorted.
  - apply sort_by_key_sorted.
  - rewrite sort_by_key_perm. apply top_sentences_submseteq.
Qed.

(** C1, amended: [summarize_text] returns the first fallback message
    when the text has no sentence, the second one when the frequency
    table is empty, and otherwise the sentences of a sublist of the
    segmented sentences (so in document order) joined by single spaces;
    for a target count that is not negative these are
    [min(num_sentences, total)] sentences, so at most [num_sentences]. *)
Theorem summarize_text_selection (text : str) (num_sentences : Z) :
  (split_sentences text = [] /\ summarize_text text num_sentences = MSG_NO_TEXT) \/
  (split_sentences text <> [] /\ word_freq 2 text = [] /\
   summarize_text text num_sentences = MSG_TOO_LIMITED) \/
  (split_sentences text <> [] /\ word_freq 2 text <> [] /\
   exists sel : list str,
     sublist sel (split_sentences text) /\
     summarize_text text num_sentences = join (py " ") sel /\
     ((0 <= num_sentences)%Z ->
      Z.of_nat (length sel) =
        Z.min num_sentences (Z.of_nat (length (split_sentences text))) /\
      (Z.of_nat (length sel) <= num_sentences)%Z)).
Proof.
  unfold summarize_text.
  destruct (split_sentences text) as [|s0 ss] eqn:Es; [left; split; reflexivity|].
  right. destruct (word_freq 2 text) as [|e freq] eqn:Ef.
  - left. repeat split. discriminate.
  - right. split; [discriminate|]. split; [discriminate|].
    eexists. split; [apply summary_sublist|]. split; [reflexivity|].
    intros Hn.
    assert (Z.of_nat (length (map sc_text
              (sort_by_key sc_idx false
                 (top_sentences (e :: freq) (s0 :: ss) num_sentences)))) =
            Z.min num_sentences (Z.of_nat (length (s0 :: ss)))) as Hlen.
    { rewrite length_map, (Permutation_length (sort_by_key_perm _ _ _)).
      apply top_sentences_length, Hn. }
    split; [exact Hlen | rewrite Hlen; lia].
Qed.

(** C2: the ranking orders the scored sentences by descending score and,
    among equal scores, by ascending original index; and whenever a
    sentence [y] is selected, every sentence [x] of the same score and
    a lower original index is selected too. *)
Theorem top_sentences_tie_break (freq : counter) (sentences : list str)
    (num_sentences : Z) (x y : scored)
    (Hx : In x (scored_sentences freq sentences))
    (Hy : In y (top_sentences freq sentences num_sentences))
    (Hscore : sc_score x = sc_score y)
    (Hidx : (sc_idx x < sc_idx y)%nat) :
  StronglySorted ranks_before (ranked_sentences freq sentences) /\
  In x (top_sentences freq sentences num_sentences).
Proof.
  split; [apply ranked_sentences_sorted|].
  pose proof (ranked_sentences_sorted freq sentences) as Hs.
  revert Hy. unfold top_sentences.
  destruct (slice_to_take
              (Z.min num_sentences (Z.of_nat (length (ranked_sentences freq sentences))))
              (ranked_sentences freq sentences)) as [m ->].
  intros Hy. rewrite <- (take_drop m (ranked_sentences freq sentences)) in Hs.
  assert (x ∈ ranked_sentences freq sentences) as Hx'.
  { unfold ranked_sentences. rewrite sort_by_key_perm. apply list_elem_of_In, Hx. }
  rewrite <- (take_drop m (ranked_sentences freq sentences)) in Hx'.
  apply elem_of_app in Hx'. destruct Hx' as [Hx'|Hx']; [apply list_elem_of_In, Hx'|].
  exfalso. apply list_elem_of_In in Hy.
  pose proof (StronglySorted_app_1_elem_of _ _ _ _ _ Hs Hy Hx') as Hyx.
  apply (ranks_before_asym y x Hyx). right. split; assumption.
Qed.

(** C10: when the text has a sentence and a frequency table that is not
    empty, [summarize_text] with [num_sentences = 0] returns the empty
    string. *)
Theorem summarize_text_zero (text : str)
    (Hsent : split_sentences text <> [])
    (Hfreq : word_freq 2 text <> []) :
  summarize_text text 0 = [].
Proof.
  unfold summarize_text.
  destruct (split_sentences text) as [|s0 ss]; [congruence|].
  destruct (word_freq 2 text) as [|e freq]; [congruence|].
  unfold top_sentences, slice_to.
  replace (Z.min 0 (Z.of_nat (length (ranked_sentences (e :: freq) (s0 :: ss)))))
    with 0%Z by lia.
  reflexivity.
Qed.

(** ** [generate_questions] *)

Local Arguments Nat.modulo : simpl never.

Lemma questions_loop_closed (max_q : Z) (terms : list str) :
  forall (questions : list str) (t_i : nat),
    questions_loop max_q terms questions t_i =
    questions ++
    imap (fun i term =>
            format_term (nth ((t_i + i) mod length templates) templates []) term)
      (take (Z.to_nat (max_q - Z.of_nat (length questions))) terms).
Proof.
  induction terms as [|term rest IH]; intros questions t_i; simpl.
  - rewrite take_nil, app_nil_r. reflexivity.
  - destruct (Z.leb_spec max_q (Z.of_nat (length questions))) as [Hle|Hlt].
    + replace (Z.to_nat (max_q - Z.of_nat (length questions))) with 0%nat by lia.
      rewrite app_nil_r. reflexivity.
    + rewrite IH, length_app. simpl.
      replace (Z.to_nat (max_q - Z.of_nat (length questions)))
        with (S (Z.to_nat (max_q - Z.of_nat (length questions + 1)))) by lia.
      simpl. rewrite <- app_assoc. simpl. rewrite Nat.add_0_r.
      do 2 f_equal. apply imap_ext. intros i x _. simpl.
      replace (S (t_i + i)) with (t_i + S i)%nat by lia. reflexivity.
Qed.

(** The questions are the key terms, at most [max_q] of them, each put
    into the template of its position modulo 5; the fallback list
    stands in for an empty result. *)
Lemma generate_questions_closed (text : str) (max_q : Z) :
  generate_questions text max_q =
  match imap (fun i term => format_term (nth (i mod 5) templates []) term)
          (take (Z.to_nat max_q) (key_terms text)) with
  | [] => FALLBACK_QUESTIONS
  | qs => qs
  end.
Proof.
  unfold generate_questions. rewrite questions_loop_closed.
  cbn [app length Nat.add]. change (Z.of_nat 0) with 0%Z. rewrite Z.sub_0_r.
  change (length templates) with 5%nat.
  destruct (imap _ _); reflexivity.
Qed.

Lemma counter_incr_same w m : counter_incr w [(w, m)] = [(w, S m)].
Proof. simpl. destruct (decide (w = w)); [reflexivity | congruence]. Qed.

Lemma Counter_replicate (w : str) (k : nat) :
  Counter (replicate (S k) w) = [(w, S k)].
Proof.
  unfold Counter. simpl.
  assert (forall m, foldl (fun c t => counter_incr t c) [(w, m)] (replicate k w)
                    = [(w, (m + k)%nat)]) as H.
  { induction k as [|k IH]; intros m; simpl.
    - rewrite Nat.add_0_r. reflexivity.
    - destruct (decide (w = w)); [|congruence]. rewrite IH. do 2 f_equal. lia. }
  apply H.
Qed.

Lemma key_terms_nil (text : str) :
  List.filter (qualifying 3) (tokenize_words text) = [] -> key_terms text = [].
Proof. unfold key_terms, word_freq. intros ->. reflexivity. Qed.

Lemma filter_only_word (w : str) (tokens : list str) :
  qualifying 3 w = true ->
  forallb (fun t => bool_decide (t = w) || is_stopword t) tokens = true ->
  List.filter (qualifying 3) tokens =
  replicate (length (List.filter (fun t => bool_decide (t = w)) tokens)) w.
Proof.
  intros Hw. induction tokens as [|t tokens IH]; [reflexivity|].
  simpl. intros H. apply andb_true_iff in H. destruct H as [Ht H].
  destruct (bool_decide_reflect (t = w)) as [->|Hne].
  - rewrite Hw. simpl. f_equal. apply IH, H.
  - simpl in Ht. unfold qualifying at 1. rewrite Ht. simpl. apply IH, H.
Qed.

Lemma length_lt_1_nil {A} (l : list A) : (length l < 1)%nat -> l = [].
Proof. destruct l; simpl; [reflexivity | lia]. Qed.

(** C3, amended: for a text without any qualifying token,
    [summarize_text] returns the "too limited" message when the text
    has a sentence of 25 characters or more, and the "could not
    extract" message otherwise; [generate_questions] returns the three
    fallback questions.  Both functions are total. *)
Theorem no_qualifying_token_fallbacks (text : str) (num_sentences max_q : Z) :
  ((length (List.filter (qualifying 2) (tokenize_words text)) < 1)%nat ->
   summarize_text text num_sentences =
   match split_sentences text with
   | [] => MSG_NO_TEXT
   | _ => MSG_TOO_LIMITED
   end) /\
  ((length (List.filter (qualifying 3) (tokenize_words text)) < 1)%nat ->
   generate_questions text max_q = FALLBACK_QUESTIONS).
Proof.
  split; intros H; apply length_lt_1_nil in H.
  - unfold summarize_text, word_freq. rewrite H.
    destruct (split_sentences text); reflexivity.
  - rewrite generate_questions_closed, (key_terms_nil text H), take_nil.
    reflexivity.
Qed.

(** C8: for a text whose tokens are one word [w] of five or more
    characters that is not a stopword, at least ten times, and
    otherwise stopwords only, and for a positive [max_q],
    [generate_questions] returns exactly one question, the first
    template filled with [w]; in general the question at position [i]
    is the template [i mod 5] filled with the key term at position
    [i]. *)
Theorem generate_questions_templates (text w : str) (max_q : Z)
    (Hlen : (5 <= length w)%nat)
    (Hdist : is_stopword w = false)
    (Honly : forallb (fun t => bool_decide (t = w) || is_stopword t)
               (tokenize_words text) = true)
    (Hrep : (10 <= length (List.filter (fun t => bool_decide (t = w))
                             (tokenize_words text)))%nat)
    (Hmax : (1 <= max_q)%Z) :
  generate_questions text max_q = [format_term (nth 0 templates []) w] /\
  format_term (nth 0 templates []) w = py "Define: '" ++ w ++ py "'." /\
  (forall text' max_q',
     generate_questions text' max_q' =
     match imap (fun i term => format_term (nth (i mod 5) templates []) term)
             (take (Z.to_nat max_q') (key_terms text')) with
     | [] => FALLBACK_QUESTIONS
     | qs => qs
     end).
Proof.
  split; [|split; [reflexivity | apply generate_questions_closed]].
  assert (qualifying 3 w = true) as Hq.
  { unfold qualifying. rewrite Hdist. simpl. apply Nat.ltb_lt. lia. }
  assert (key_terms text = [w]) as Hk.
  { unfold key_terms, word_freq. rewrite (filter_only_word w _ Hq Honly).
    destruct (length (List.filter (fun t => bool_decide (t = w)) (tokenize_words text)))
      as [|k]; [lia|].
    rewrite Counter_replicate. reflexivity. }
  rewrite generate_questions_closed, Hk.
  replace (Z.to_nat max_q) with (S (Z.to_nat (max_q - 1))) by lia.
  rewrite firstn_cons, take_nil. reflexivity.
Qed.

Lemma questions_loop_nil (max_q : Z) (terms : list str) :
  questions_loop max_q terms [] 0 = [] <-> terms = [] \/ (max_q <= 0)%Z.
Proof.
  destruct terms as [|term rest]; [simpl; tauto|].
  cbn [questions_loop length]. change (Z.of_nat 0) with 0%Z.
  destruct (Z.leb_spec max_q 0) as [Hle|Hlt].
  - split; [right; exact Hle | reflexivity].
  - rewrite questions_loop_closed. split.
    + intros H. apply app_eq_nil in H. destruct H as [H _].
      apply app_eq_nil in H. destruct H as [_ H]. discriminate H.
    + intros [H|H]; [discriminate H | lia].
Qed.

(** C9: [generate_questions] never returns the empty list: whenever
    the list of generated questions is empty, which is when there is no
    key term or [max_q] is zero or negative, it returns the three
    fallback questions, and otherwise the generated questions; so for
    [max_q] zero or negative it returns the fallback questions whatever
    the key terms are, and these are more than [max_q]. *)
Theorem generate_questions_never_empty (text : str) (max_q : Z) :
  generate_questions text max_q <> [] /\
  (questions_loop max_q (key_terms text) [] 0 = [] ->
   generate_questions text max_q = FALLBACK_QUESTIONS) /\
  (questions_loop max_q (key_terms text) [] 0 <> [] ->
   generate_questions text max_q = questions_loop max_q (key_terms text) [] 0) /\
  (questions_loop max_q (key_terms text) [] 0 = [] <->
   key_terms text = [] \/ (max_q <= 0)%Z) /\
  (key_terms text = [] \/ (max_q <= 0)%Z ->
   generate_questions text max_q = FALLBACK_QUESTIONS /\
   length (generate_questions text max_q) = 3%nat) /\
  ((max_q <= 0)%Z ->
   generate_questions text max_q = FALLBACK_QUESTIONS /\
   (max_q < Z.of_nat (length (generate_questions text max_q)))%Z).
Proof.
  assert (key_terms text = [] \/ (max_q <= 0)%Z ->
          generate_questions text max_q = FALLBACK_QUESTIONS) as Hfb.
  { intros H. apply questions_loop_nil in H. unfold generate_questions.
    rewrite H. reflexivity. }
  split; [|split; [|split; [|split; [|split]]]].
  - unfold generate_questions.
    destruct (questions_loop max_q (key_terms text) [] 0); discriminate.
  - intros H. unfold generate_questions. rewrite H. reflexivity.
  - intros H. unfold generate_questions.
    destruct (questions_loop max_q (key_terms text) [] 0); [congruence | reflexivity].
  - apply questions_loop_nil.
  - intros H. rewrite (Hfb H). split; reflexivity.
  - intros Hle. rewrite (Hfb (or_intror Hle)). split; [reflexivity|]. simpl. lia.
Qed.

(** ** [clean_text]: what it keeps *)

Lemma filter_nonspace_replace a b t :
  isspace a = true -> isspace b = true ->
  List.filter nonspace (replace_char a b t) = List.filter nonspace t.
Proof.
  intros Ha Hb. unfold replace_char. induction t as [|c t IH]; [reflexivity|].
  simpl. rewrite IH. destruct (N.eqb_spec c a) as [->|_]; [|reflexivity].
  unfold nonspace. rewrite Ha, Hb. reflexivity.
Qed.

Lemma filter_nonspace_sub_runs2 p rep t :
  (forall c, p c = true -> isspace c = true) -> isspace rep = true ->
  forall b, List.filter nonspace (sub_runs2 p rep b t) = List.filter nonspace t.
Proof.
  intros Hp Hrep. induction t as [|c t IH]; intros b; [reflexivity|].
  cbn [sub_runs2 List.filter]. destruct (p c) eqn:Hc.
  - unfold nonspace at 2. rewrite (Hp c Hc). cbn [negb].
    destruct b; [apply IH|].
    destruct t as [|d t']; [cbn; unfold nonspace; rewrite (Hp c Hc); reflexivity|].
    destruct (p d) eqn:Hd; cbn [List.filter].
    + unfold nonspace at 1. rewrite Hrep. cbn [negb]. apply IH.
    + unfold nonspace at 1. rewrite (Hp c Hc). cbn [negb]. apply IH.
  - cbn [List.filter]. rewrite IH. reflexivity.
Qed.

Lemma filter_nonspace_lstrip t :
  List.filter nonspace (lstrip t) = List.filter nonspace t.
Proof.
  induction t as [|c t IH]; [reflexivity|].
  simpl. destruct (isspace c) eqn:Hc; [|reflexivity].
  unfold nonspace at 2. rewrite Hc. exact IH.
Qed.

Lemma filter_reverse {A} (f : A -> bool) (l : list A) :
  List.filter f (reverse l) = reverse (List.filter f l).
Proof.
  induction l as [|x l IH]; [reflexivity|].
  rewrite reverse_cons, List.filter_app, IH. simpl.
  destruct (f x); [rewrite reverse_cons | rewrite app_nil_r]; reflexivity.
Qed.

Lemma filter_nonspace_strip t :
  List.filter nonspace (strip t) = List.filter nonspace t.
Proof.
  unfold strip, rstrip.
  rewrite filter_reverse, filter_nonspace_lstrip, filter_reverse, reverse_involutive.
  apply filter_nonspace_lstrip.
Qed.

Lemma newline_is_space c : is_newline c = true -> isspace c = true.
Proof. unfold is_newline. intros H. apply N.eqb_eq in H. subst c. reflexivity. Qed.

Lemma hspace_is_space c : is_hspace c = true -> isspace c = true.
Proof.
  unfold is_hspace. intros H. apply orb_true_iff in H.
  destruct H as [H|H]; apply N.eqb_eq in H; subst c; reflexivity.
Qed.

Ltac filter_clean_text :=
  unfold clean_text;
  rewrite filter_nonspace_strip;
  rewrite (filter_nonspace_sub_runs2 is_hspace 0x20 _ hspace_is_space eq_refl);
  rewrite (filter_nonspace_sub_runs2 is_newline 0x0A _ newline_is_space eq_refl);
  apply filter_nonspace_replace; reflexivity.

Lemma filter_nonspace_nil (l : str) :
  List.filter nonspace l = [] <-> forallb isspace l = true.
Proof.
  induction l as [|c l IH]; [simpl; tauto|].
  simpl. unfold nonspace at 1. destruct (isspace c); simpl; [exact IH|].
  split; discriminate.
Qed.

Lemma sub_runs2_length p rep t :
  forall b, (length (sub_runs2 p rep b t) <= length t)%nat.
Proof.
  induction t as [|c t IH]; intros b; [reflexivity|].
  cbn [sub_runs2]. destruct (p c).
  - destruct b; [specialize (IH true); simpl; lia|].
    destruct t as [|d t']; [reflexivity|].
    destruct (p d); [specialize (IH true) | specialize (IH false)];
      cbn [length] in *; lia.
  - specialize (IH false). cbn [length]. lia.
Qed.

Lemma strip_length t : (length (strip t) <= length t)%nat.
Proof.
  destruct (strip_infix t) as (a & b & E). rewrite E at 2.
  rewrite !length_app. lia.
Qed.

(** X1: [clean_text] changes whitespace only: the characters of the
    result that are not whitespace are those of the input, in the same
    order. *)
Theorem clean_text_keeps_nonspace (x : str) :
  List.filter nonspace (clean_text x) = List.filter nonspace x.
Proof. filter_clean_text. Qed.

(** X2: [clean_text] never makes a text longer. *)
Theorem clean_text_length (x : str) :
  (length (clean_text x) <= length x)%nat.
Proof.
  unfold clean_text.
  etransitivity; [apply strip_length|].
  etransitivity; [apply sub_runs2_length|].
  etransitivity; [apply sub_runs2_length|].
  unfold replace_char. rewrite length_map. reflexivity.
Qed.

(** X3: [clean_text] returns the empty string exactly for the texts that
    consist of whitespace only. *)
Theorem clean_text_empty_iff (x : str) :
  clean_text x = [] <-> forallb isspace x = true.
Proof.
  assert (List.filter nonspace (clean_text x) = List.filter nonspace x) as E
      by filter_clean_text.
  rewrite <- filter_nonspace_nil, <- E. split.
  - intros ->. reflexivity.
  - intros H. pose proof (strip_head
      (sub_runs2 is_hspace 0x20 false
         (sub_runs2 is_newline 0x0A false (replace_char 0x0D 0x0A x)))) as Hh.
    fold (clean_text x) in Hh.
    destruct (clean_text x) as [|c t]; [reflexivity|].
    simpl in Hh, H. unfold nonspace in H. rewrite Hh in H. discriminate.
Qed.


(** ** [split_sentences]: the shape of the sentences *)

Lemma sub_runs1_adj p rep t :
  forall b,
    has_adj p (sub_runs1 p rep b t) = false /\
    (b = true -> from_option p false (head (sub_runs1 p rep b t)) = false).
Proof.
  induction t as [|c t IH]; intros b; [simpl; tauto|].
  cbn [sub_runs1]. destruct (p c) eqn:Hc.
  - destruct b; [apply IH|].
    split; [|discriminate]. destruct (IH true) as [H1 H2].
    rewrite has_adj_cons, H1, (H2 eq_refl), andb_false_r. reflexivity.
  - destruct (IH false) as [H1 _].
    rewrite has_adj_cons, H1, Hc. simpl. tauto.
Qed.

Lemma sub_runs1_Forall (P : N -> Prop) p rep t :
  P rep -> Forall P t -> forall b, Forall P (sub_runs1 p rep b t).
Proof.
  intros Hrep. induction 1 as [|c t Hc Ht IH]; intros b; simpl; [constructor|].
  destruct (p c); [destruct b; [apply IH | constructor; auto] | constructor; auto].
Qed.

Lemma sub_runs1_only_spaces t :
  forall b, only_spaces (sub_runs1 isspace 0x20 b t) = true.
Proof.
  unfold only_spaces. induction t as [|c t IH]; intros b; [reflexivity|].
  cbn [sub_runs1]. destruct (isspace c) eqn:Hc.
  - destruct b; [apply IH|]. cbn [forallb]. rewrite IH. reflexivity.
  - cbn [forallb]. unfold nonspace at 1. rewrite Hc, IH. reflexivity.
Qed.

Lemma only_spaces_infix a s b :
  only_spaces (a ++ s ++ b) = true -> only_spaces s = true.
Proof.
  unfold only_spaces. rewrite !forallb_app. intros H.
  apply andb_true_iff in H. destruct H as [_ H].
  apply andb_true_iff in H. tauto.
Qed.

Lemma normalize_spaces_adj text : has_adj isspace (normalize_spaces text) = false.
Proof. unfold normalize_spaces. apply strip_adj, sub_runs1_adj. Qed.

Lemma normalize_spaces_only_spaces text : only_spaces (normalize_spaces text) = true.
Proof.
  unfold normalize_spaces.
  destruct (strip_infix (sub_runs1 isspace 0x20 false text)) as (a & b & E).
  apply (only_spaces_infix a _ b). rewrite <- E. apply sub_runs1_only_spaces.
Qed.

Lemma in_order_infix ss t :
  in_order ss t -> forall s, In s ss -> exists a b, t = a ++ s ++ b.
Proof.
  induction 1 as [t|g s0 ss t _ IH]; intros s Hs; [destruct Hs|].
  destruct Hs as [->|Hs].
  - exists g, t. reflexivity.
  - destruct (IH s Hs) as (a & b & ->).
    exists (g ++ s0 ++ a), b. rewrite <- !app_assoc. reflexivity.
Qed.

Lemma has_boundary_cons x l :
  has_boundary (x :: l)
  = (is_terminal x && from_option isspace false (head l)) || has_boundary l.
Proof. destruct l; simpl; [rewrite andb_false_r|]; reflexivity. Qed.

Lemma has_boundary_snoc acc c :
  has_boundary (acc ++ [c])
  = has_boundary acc || (from_option is_terminal false (last acc) && isspace c).
Proof.
  induction acc as [|x acc IH]; [reflexivity|].
  destruct acc as [|y acc'].
  - simpl. destruct (is_terminal x), (isspace c); reflexivity.
  - change ((x :: y :: acc') ++ [c]) with (x :: (y :: acc') ++ [c]).
    rewrite has_boundary_cons, IH, (has_boundary_cons x (y :: acc')).
    change (last (x :: y :: acc')) with (last (y :: acc')).
    cbn [app head from_option]. rewrite orb_assoc. reflexivity.
Qed.

Lemma has_boundary_app_r a l : has_boundary (a ++ l) = false -> has_boundary l = false.
Proof.
  induction a as [|x a IH]; [tauto|].
  rewrite <- app_comm_cons, has_boundary_cons. intros H.
  apply orb_false_iff in H. tauto.
Qed.

Lemma has_boundary_app_l l b : has_boundary (l ++ b) = false -> has_boundary l = false.
Proof.
  induction l as [|x l IH]; [reflexivity|].
  rewrite <- app_comm_cons, !has_boundary_cons. intros H.
  apply orb_false_iff in H. destruct H as [H1 H2].
  rewrite (IH H2), orb_false_r.
  destruct l; simpl in *; [apply andb_false_r | exact H1].
Qed.

(** A state of the splitting scan whose piece has no split point, and
    whose flag tells whether the piece ends with a character of
    [[.!?]]. *)
Lemma split_from_no_boundary t :
  forall st,
    match st with
    | Piece prev acc =>
        has_boundary acc = false /\
        prev = from_option is_terminal false (last acc)
    | Gap => True
    end ->
    Forall (fun p => has_boundary p = false) (split_from st t).
Proof.
  induction t as [|c t IH]; intros st Hst.
  - destruct st as [prev acc|]; repeat constructor. tauto.
  - destruct st as [prev acc|]; cbn [split_from].
    + destruct Hst as [Hb Hprev].
      destruct (prev && isspace c) eqn:E.
      * constructor; [exact Hb | apply IH; exact I].
      * apply IH. split.
        -- rewrite has_boundary_snoc, Hb, <- Hprev, E. reflexivity.
        -- rewrite last_snoc. reflexivity.
    + destruct (isspace c); [apply IH; exact I|].
      apply IH. split; reflexivity.
Qed.

(** X4: every sentence that [split_sentences] returns is one sentence:
    it contains no character of [[.!?]] followed by whitespace; and its
    only whitespace are single spaces. *)
Theorem split_sentences_shape (text s : str) (Hs : In s (split_sentences text)) :
  has_boundary s = false /\
  has_adj isspace s = false /\
  only_spaces s = true.
Proof.
  unfold split_sentences in Hs.
  destruct (normalize_spaces text) as [|c t] eqn:E; [destruct Hs|].
  apply in_map_iff in Hs. destruct Hs as (p & <- & Hp).
  apply filter_In in Hp. destruct Hp as [Hp _].
  destruct (strip_infix p) as (a & b & Ep).
  pose proof (split_from_in_order (c :: t) (Piece false [])) as Hord.
  destruct (in_order_infix _ _ Hord p Hp) as (a' & b' & Et). simpl in Et.
  pose proof (normalize_spaces_adj text) as Hadj.
  pose proof (normalize_spaces_only_spaces text) as Hsp.
  rewrite E, Et in Hadj, Hsp.
  pose proof (split_from_no_boundary (c :: t) (Piece false []) (conj eq_refl eq_refl)) as Hnb.
  rewrite List.Forall_forall in Hnb. specialize (Hnb p Hp).
  rewrite Ep in Hnb, Hadj, Hsp.
  split; [|split].
  - apply has_boundary_app_r, has_boundary_app_l in Hnb. exact Hnb.
  - apply has_adj_app_r, has_adj_app_l, has_adj_app_r, has_adj_app_l in Hadj. exact Hadj.
  - apply only_spaces_infix, only_spaces_infix in Hsp. exact Hsp.
Qed.

(** ** [split_sentences]: a text without sentence punctuation *)

Lemma split_from_no_terminal t :
  forall acc,
    Forall (fun c => is_terminal c = false) t ->
    split_from (Piece false acc) t = [acc ++ t].
Proof.
  induction t as [|c t IH]; intros acc H; simpl; [rewrite app_nil_r; reflexivity|].
  inversion H as [|? ? Hc Ht]; subst. rewrite Hc, IH by exact Ht.
  rewrite <- app_assoc. reflexivity.
Qed.

Lemma existsb_false_Forall (f : N -> bool) (l : str) :
  existsb f l = false -> Forall (fun c => f c = false) l.
Proof.
  induction l as [|c l IH]; [constructor|].
  simpl. intros H. apply orb_false_iff in H. constructor; tauto.
Qed.

(** X5: a text without any character of [[.!?]] is one sentence: when
    its whitespace-collapsed form has 25 characters or more,
    [split_sentences] returns that form alone, and otherwise nothing. *)
Theorem split_sentences_no_terminal (text : str)
    (Hno : existsb is_terminal text = false) :
  split_sentences text =
  if Nat.leb 25 (length (normalize_spaces text)) then [normalize_spaces text] else [].
Proof.
  assert (Forall (fun c => is_terminal c = false) (normalize_spaces text)) as Hall.
  { unfold normalize_spaces. apply strip_Forall, sub_runs1_Forall; [reflexivity|].
    apply existsb_false_Forall, Hno. }
  assert (strip (normalize_spaces text) = normalize_spaces text) as Hstrip
      by (unfold normalize_spaces; apply strip_strip).
  unfold split_sentences.
  destruct (normalize_spaces text) as [|c t] eqn:E; [reflexivity|].
  unfold re_split_sentences. rewrite (split_from_no_terminal _ [] Hall).
  cbn [app List.filter]. rewrite Hstrip.
  destruct (Nat.leb 25 (length (c :: t))); [|reflexivity].
  cbn [map]. rewrite Hstrip. reflexivity.
Qed.


(** ** [split_sentences]: the round trip *)

Lemma split_from_nonempty t : forall st, split_from st t <> [].
Proof.
  induction t as [|c t IH]; intros st; destruct st as [prev acc|]; cbn [split_from];
    try discriminate.
  - destruct (prev && isspace c); [discriminate | apply IH].
  - destruct (isspace c); apply IH.
Qed.

Lemma join_cons sep x l : l <> [] -> join sep (x :: l) = x ++ sep ++ join sep l.
Proof. destruct l; [congruence | reflexivity]. Qed.

Lemma only_spaces_space c t :
  only_spaces (c :: t) = true -> isspace c = true -> c = 0x20.
Proof.
  unfold only_spaces. simpl. unfold nonspace. intros H Hc. rewrite Hc in H.
  apply andb_true_iff in H. destruct H as [H _]. apply N.eqb_eq in H. exact H.
Qed.

(** On a text whose whitespace are single spaces, the pieces of the
    split, joined by single spaces, are the text. *)
Lemma split_from_join t :
  only_spaces t = true -> has_adj isspace t = false ->
  (forall prev acc, join [0x20] (split_from (Piece prev acc) t) = acc ++ t) /\
  (space_at (head t) = false -> join [0x20] (split_from Gap t) = t).
Proof.
  induction t as [|c t IH]; intros Hsp Hadj.
  - split; [intros prev acc; simpl; rewrite app_nil_r|]; reflexivity.
  - assert (only_spaces t = true) as Hsp'
        by (unfold only_spaces in *; simpl in Hsp; apply andb_true_iff in Hsp; tauto).
    rewrite has_adj_cons in Hadj. apply orb_false_iff in Hadj.
    destruct Hadj as [Hc Hadj']. destruct (IH Hsp' Hadj') as [IHp IHg].
    split.
    + intros prev acc. cbn [split_from]. destruct (prev && isspace c) eqn:E.
      * apply andb_true_iff in E. destruct E as [_ E].
        rewrite (only_spaces_space c t Hsp E).
        rewrite join_cons by apply split_from_nonempty.
        rewrite IHg; [reflexivity|].
        rewrite E in Hc. exact Hc.
      * rewrite IHp, <- app_assoc. reflexivity.
    + intros Hh. simpl in Hh. cbn [split_from]. rewrite Hh. apply IHp.
Qed.

(** Pieces joined by single spaces into a text without neighbouring
    whitespace and without whitespace at its ends have no whitespace at
    their own ends. *)
Lemma joined_pieces_stripped (ps : list str) :
  has_adj isspace (join [0x20] ps) = false ->
  space_at (head (join [0x20] ps)) = false ->
  space_at (last (join [0x20] ps)) = false ->
  Forall (fun p => strip p = p) ps.
Proof.
  induction ps as [|p ps IH]; intros Hadj Hh Hl; [constructor|].
  destruct ps as [|q r].
  - constructor; [|constructor]. apply strip_id; assumption.
  - rewrite join_cons in Hadj, Hh, Hl by discriminate.
    set (t := join [0x20] (q :: r)) in *.
    constructor.
    + apply strip_id.
      * destruct p as [|c p']; [reflexivity | exact Hh].
      * destruct (last p) as [c|] eqn:E; [|reflexivity].
        apply last_Some in E. destruct E as [p0 ->].
        rewrite <- app_assoc in Hadj. simpl in Hadj.
        pose proof (has_adj_spec _ _ Hadj p0 c 0x20 t eq_refl) as H.
        rewrite andb_true_r in H. exact H.
    + assert (exists d t', t = d :: t' /\ isspace d = false) as (d & t' & Et & Hd).
      { destruct t as [|d t'] eqn:Et.
        - rewrite app_nil_r, last_snoc in Hl. discriminate Hl.
        - exists d, t'. split; [reflexivity|].
          simpl in Hadj.
          exact (has_adj_spec _ _ Hadj p 0x20 d t' eq_refl). }
      apply IH.
      * apply (has_adj_app_r _ (p ++ [0x20])). rewrite <- app_assoc. exact Hadj.
      * fold t. rewrite Et. exact Hd.
      * fold t. rewrite app_assoc, last_app in Hl.
        destruct (last t) eqn:E; [exact Hl|].
        apply last_None in E. congruence.
Qed.

(** X6: when every piece between the split points of the
    whitespace-collapsed text has 25 characters or more, no sentence is
    dropped, and the sentences joined by single spaces are the
    whitespace-collapsed text. *)
Theorem split_sentences_join (text : str)
    (Hlong : forallb (fun p => Nat.leb 25 (length p))
               (re_split_sentences (normalize_spaces text)) = true) :
  join [0x20] (split_sentences text) = normalize_spaces text.
Proof.
  pose proof (normalize_spaces_adj text) as Hadj.
  pose proof (normalize_spaces_only_spaces text) as Hsp.
  pose proof (strip_head (sub_runs1 isspace 0x20 false text)) as Hh.
  pose proof (strip_last (sub_runs1 isspace 0x20 false text)) as Hl.
  fold (normalize_spaces text) in Hh, Hl.
  unfold split_sentences.
  destruct (normalize_spaces text) as [|c t] eqn:E; [discriminate Hlong|].
  destruct (split_from_join (c :: t) Hsp Hadj) as [Hjoin _].
  specialize (Hjoin false []). fold (re_split_sentences (c :: t)) in Hjoin.
  assert (Forall (fun p => strip p = p) (re_split_sentences (c :: t))) as Hstrip
      by (apply joined_pieces_stripped; rewrite Hjoin; assumption).
  assert (map strip (List.filter (fun s => Nat.leb 25 (length (strip s)))
                       (re_split_sentences (c :: t)))
          = re_split_sentences (c :: t)) as ->; [|exact Hjoin].
  revert Hlong Hstrip. generalize (re_split_sentences (c :: t)). intros ps.
  induction ps as [|p ps IH]; intros Hlong Hstrip; [reflexivity|].
  inversion Hstrip as [|? ? Hp Hps]; subst.
  cbn [forallb] in Hlong. apply andb_true_iff in Hlong. destruct Hlong as [Hlen Hlong].
  cbn [List.filter]. rewrite Hp, Hlen. cbn [map]. rewrite Hp, (IH Hlong Hps).
  reflexivity.
Qed.


(** ** The frequency table *)

Lemma counter_get_incr x c w :
  counter_get (counter_incr x c) w
  = (counter_get c w + (if bool_decide (x = w) then 1 else 0))%nat.
Proof.
  induction c as [|[k n] c IH]; simpl.
  - destruct (decide (x = w)) as [E|E];
      [rewrite (bool_decide_eq_true_2 _ E) | rewrite (bool_decide_eq_false_2 _ E)];
      reflexivity.
  - destruct (decide (k = x)) as [->|Hkx]; simpl.
    + destruct (decide (x = w)) as [E|E];
        [rewrite (bool_decide_eq_true_2 _ E) | rewrite (bool_decide_eq_false_2 _ E)]; lia.
    + destruct (decide (k = w)) as [->|Hkw]; [|exact IH].
      rewrite bool_decide_eq_false_2 by congruence. lia.
Qed.

Lemma counter_mem_incr x c w :
  counter_mem (counter_incr x c) w = counter_mem c w || bool_decide (x = w).
Proof.
  induction c as [|[k n] c IH]; simpl.
  - destruct (decide (x = w)) as [E|E];
      [rewrite (bool_decide_eq_true_2 _ E) | rewrite (bool_decide_eq_false_2 _ E)];
      reflexivity.
  - destruct (decide (k = x)) as [->|Hkx]; simpl.
    + destruct (decide (x = w)) as [E|E];
        [rewrite (bool_decide_eq_true_2 _ E) | rewrite (bool_decide_eq_false_2 _ E)];
        [reflexivity | rewrite orb_false_r; reflexivity].
    + destruct (decide (k = w)) as [->|Hkw]; [reflexivity | exact IH].
Qed.

Lemma Counter_get (ws : list str) (w : str) :
  counter_get (Counter ws) w = count_word w ws.
Proof.
  unfold Counter, count_word.
  assert (forall c, counter_get (foldl (fun c t => counter_incr t c) c ws) w
                    = (counter_get c w
                       + length (List.filter (fun t => bool_decide (t = w)) ws))%nat) as H.
  { induction ws as [|t ws IH]; intros c; simpl; [lia|].
    rewrite IH, counter_get_incr. destruct (bool_decide (t = w)); simpl; lia. }
  apply (H []).
Qed.

Lemma Counter_mem (ws : list str) (w : str) :
  counter_mem (Counter ws) w = true <-> In w ws.
Proof.
  unfold Counter.
  assert (forall c, counter_mem (foldl (fun c t => counter_incr t c) c ws) w = true
                    <-> counter_mem c w = true \/ In w ws) as H.
  { induction ws as [|t ws IH]; intros c; simpl; [tauto|].
    rewrite IH, counter_mem_incr, orb_true_iff, bool_decide_eq_true. tauto. }
  rewrite (H []). simpl. split; [intros [H'|H']; [discriminate | exact H'] | tauto].
Qed.

Lemma counter_get_not_mem c w : counter_mem c w = false -> counter_get c w = 0%nat.
Proof.
  induction c as [|[k n] c IH]; [reflexivity|].
  simpl. destruct (decide (k = w)); [discriminate | exact IH].
Qed.

Lemma count_word_filter (q : str -> bool) (w : str) (ws : list str) :
  count_word w (List.filter q ws) = if q w then count_word w ws else 0%nat.
Proof.
  unfold count_word. induction ws as [|t ws IH]; [destruct (q w); reflexivity|].
  cbn [List.filter]. destruct (q t) eqn:Hq; cbn [List.filter].
  - destruct (bool_decide_reflect (t = w)) as [->|Hne].
    + rewrite Hq in *. cbn [length]. rewrite IH. reflexivity.
    + exact IH.
  - destruct (bool_decide_reflect (t = w)) as [->|Hne]; [|exact IH].
    rewrite Hq in *. exact IH.
Qed.

(** X7: the frequency table counts: the entry of a word is the number
    of its occurrences among the tokens of the text when the word
    qualifies (it is not a stopword and it is longer than the minimum),
    and a word that does not qualify, or does not occur, has no entry. *)
Theorem word_freq_counts (min_len : nat) (text w : str) :
  counter_get (word_freq min_len text) w
  = (if qualifying min_len w then count_word w (tokenize_words text) else 0%nat) /\
  (counter_mem (word_freq min_len text) w = true <->
   qualifying min_len w = true /\ In w (tokenize_words text)).
Proof.
  unfold word_freq. split.
  - rewrite Counter_get. apply count_word_filter.
  - rewrite Counter_mem, filter_In. tauto.
Qed.

Lemma score_words_sum (freq : counter) (ws : list str) :
  score_words freq ws = foldr Nat.add 0%nat (map (counter_get freq) ws).
Proof.
  unfold score_words. induction ws as [|w ws IH]; [reflexivity|].
  cbn [List.filter map foldr]. destruct (counter_mem freq w) eqn:E.
  - cbn [map foldr]. rewrite IH. reflexivity.
  - rewrite IH, (counter_get_not_mem _ _ E). reflexivity.
Qed.

(** X8: the score of a sentence is the sum, over its tokens that are
    not stopwords and have three characters or more, of the number of
    occurrences of the token in the whole text; the other tokens add
    nothing. *)
Theorem sentence_score_sum (text : str) (s_words : list str) :
  score_words (word_freq 2 text) s_words
  = foldr Nat.add 0%nat
      (map (fun w => if qualifying 2 w then count_word w (tokenize_words text)
                     else 0%nat) s_words).
Proof.
  rewrite score_words_sum. f_equal. apply map_ext. intros w.
  unfold word_freq. rewrite Counter_get. apply count_word_filter.
Qed.


(** ** [summarize_text]: the selection *)

Lemma sublist_same_length {A} (l1 l2 : list A) :
  sublist l1 l2 -> length l1 = length l2 -> l1 = l2.
Proof.
  induction 1 as [|x l1 l2 _ IH|x l1 l2 H _]; intros Hlen; [reflexivity| |].
  - f_equal. apply IH. simpl in Hlen. lia.
  - apply sublist_length in H. simpl in Hlen. lia.
Qed.

Lemma top_sentences_length_neg freq sentences n :
  (n < 0)%Z ->
  Z.of_nat (length (top_sentences freq sentences n)) =
  Z.max 0 (Z.of_nat (length sentences) + n).
Proof.
  intros Hn. unfold top_sentences, slice_to.
  assert (length (ranked_sentences freq sentences) = length sentences) as Hlen.
  { unfold ranked_sentences. rewrite (Permutation_length (sort_by_key_perm _ _ _)).
    apply scored_sentences_length. }
  rewrite Hlen.
  replace (Z.min n (Z.of_nat (length sentences))) with n by lia.
  destruct (Z.ltb_spec n 0); [|lia].
  rewrite length_take, Hlen. lia.
Qed.

(** X9: the selection takes the best: a sentence that is selected never
    has a lower score than a sentence that is not. *)
Theorem top_sentences_best (freq : counter) (sentences : list str)
    (num_sentences : Z) (x y : scored)
    (Hx : In x (top_sentences freq sentences num_sentences))
    (Hy : In y (scored_sentences freq sentences))
    (Hout : ~ In y (top_sentences freq sentences num_sentences)) :
  (sc_score y <= sc_score x)%nat.
Proof.
  pose proof (ranked_sentences_sorted freq sentences) as Hs.
  revert Hx Hout. unfold top_sentences.
  destruct (slice_to_take
              (Z.min num_sentences (Z.of_nat (length (ranked_sentences freq sentences))))
              (ranked_sentences freq sentences)) as [m ->].
  intros Hx Hout. rewrite <- (take_drop m (ranked_sentences freq sentences)) in Hs.
  assert (y ∈ ranked_sentences freq sentences) as Hy'.
  { unfold ranked_sentences. rewrite sort_by_key_perm. apply list_elem_of_In, Hy. }
  rewrite <- (take_drop m (ranked_sentences freq sentences)) in Hy'.
  apply elem_of_app in Hy'. destruct Hy' as [Hy'|Hy'].
  - exfalso. apply Hout, list_elem_of_In, Hy'.
  - apply list_elem_of_In in Hx.
    pose proof (StronglySorted_app_1_elem_of _ _ _ _ _ Hs Hx Hy') as Hxy.
    unfold ranks_before in Hxy. lia.
Qed.

(** X10: when the target count is at least the number of sentences, the
    summary is all the sentences, in their original order, joined by
    single spaces. *)
Theorem summarize_text_all (text : str) (num_sentences : Z)
    (Hsent : split_sentences text <> [])
    (Hfreq : word_freq 2 text <> [])
    (Hn : (Z.of_nat (length (split_sentences text)) <= num_sentences)%Z) :
  summarize_text text num_sentences = join (py " ") (split_sentences text).
Proof.
  unfold summarize_text.
  destruct (split_sentences text) as [|s0 ss] eqn:Es; [congruence|].
  destruct (word_freq 2 text) as [|e freq] eqn:Ef; [congruence|].
  f_equal. apply sublist_same_length; [apply summary_sublist|].
  rewrite length_map, (Permutation_length (sort_by_key_perm _ _ _)).
  apply Nat2Z.inj. rewrite top_sentences_length by lia. lia.
Qed.

Lemma top_sentences_neg_take freq sentences n :
  (n < 0)%Z ->
  top_sentences freq sentences n
  = take (Z.to_nat (Z.of_nat (length sentences) + n)) (ranked_sentences freq sentences).
Proof.
  intros Hn. unfold top_sentences, slice_to.
  assert (length (ranked_sentences freq sentences) = length sentences) as Hlen.
  { unfold ranked_sentences. rewrite (Permutation_length (sort_by_key_perm _ _ _)).
    apply scored_sentences_length. }
  rewrite Hlen.
  replace (Z.min n (Z.of_nat (length sentences))) with n by lia.
  destruct (Z.ltb_spec n 0); [reflexivity | lia].
Qed.

(** X11: a negative target count [-k] drops the [k] lowest-ranked
    sentences: the ranking is the kept sentences followed by the
    dropped ones, [min(k, total)] of them, so every kept sentence ranks
    before every dropped one; the summary is made of the kept
    sentences, [max(0, total - k)] of them, in their original order,
    and it is empty when [k] is the number of sentences or more. *)
Theorem summarize_text_negative (text : str) (num_sentences : Z)
    (Hsent : split_sentences text <> [])
    (Hfreq : word_freq 2 text <> [])
    (Hn : (num_sentences < 0)%Z) :
  (exists kept dropped : list scored,
     ranked_sentences (word_freq 2 text) (split_sentences text) = kept ++ dropped /\
     Z.of_nat (length dropped) =
       Z.min (- num_sentences) (Z.of_nat (length (split_sentences text))) /\
     Z.of_nat (length kept) =
       Z.max 0 (Z.of_nat (length (split_sentences text)) + num_sentences) /\
     (forall x y, In x kept -> In y dropped -> ranks_before x y) /\
     top_sentences (word_freq 2 text) (split_sentences text) num_sentences = kept /\
     sublist (map sc_text (sort_by_key sc_idx false kept)) (split_sentences text) /\
     length (map sc_text (sort_by_key sc_idx false kept)) = length kept /\
     summarize_text text num_sentences
     = join (py " ") (map sc_text (sort_by_key sc_idx false kept))) /\
  ((num_sentences <= - Z.of_nat (length (split_sentences text)))%Z ->
   summarize_text text num_sentences = []).
Proof.
  pose proof (top_sentences_neg_take (word_freq 2 text) (split_sentences text)
                num_sentences Hn) as Htop.
  pose proof (top_sentences_length_neg (word_freq 2 text) (split_sentences text)
                num_sentences Hn) as Hlen.
  pose proof (ranked_sentences_sorted (word_freq 2 text) (split_sentences text)) as Hs.
  assert (length (ranked_sentences (word_freq 2 text) (split_sentences text))
          = length (split_sentences text)) as Hrl.
  { unfold ranked_sentences. rewrite (Permutation_length (sort_by_key_perm _ _ _)).
    apply scored_sentences_length. }
  assert (summarize_text text num_sentences
          = join (py " ")
              (map sc_text
                 (sort_by_key sc_idx false
                    (top_sentences (word_freq 2 text) (split_sentences text)
                       num_sentences)))) as Hsum.
  { unfold summarize_text.
    destruct (split_sentences text) as [|s0 ss]; [congruence|].
    destruct (word_freq 2 text) as [|e freq]; [congruence | reflexivity]. }
  split.
  - exists (top_sentences (word_freq 2 text) (split_sentences text) num_sentences),
      (drop (Z.to_nat (Z.of_nat (length (split_sentences text)) + num_sentences))
         (ranked_sentences (word_freq 2 text) (split_sentences text))).
    split; [rewrite Htop; symmetry; apply take_drop|].
    split; [rewrite length_drop, Hrl; lia|].
    split; [exact Hlen|].
    split.
    { intros x y Hx Hy. rewrite Htop in Hx.
      rewrite <- (take_drop
                    (Z.to_nat (Z.of_nat (length (split_sentences text)) + num_sentences))
                    (ranked_sentences (word_freq 2 text) (split_sentences text))) in Hs.
      apply list_elem_of_In in Hx. apply list_elem_of_In in Hy.
      exact (StronglySorted_app_1_elem_of _ _ _ _ _ Hs Hx Hy). }
    split; [reflexivity|].
    split; [apply summary_sublist|].
    split; [|exact Hsum].
    rewrite length_map. apply (Permutation_length (sort_by_key_perm _ _ _)).
  - intros Hk. rewrite Hsum.
    destruct (top_sentences (word_freq 2 text) (split_sentences text) num_sentences)
      as [|a l]; [reflexivity|].
    cbn [length] in Hlen. lia.
Qed.


(** ** [generate_questions]: the key terms *)

Lemma counter_keys_mem (c : counter) (w : str) :
  In w (map fst c) <-> counter_mem c w = true.
Proof.
  induction c as [|[k n] c IH]; simpl; [split; [tauto | discriminate]|].
  destruct (decide (k = w)) as [->|Hne]; [tauto|].
  rewrite <- IH. split; [intros [E|H]; [congruence | exact H] | tauto].
Qed.

Lemma counter_incr_keys (x : str) (c : counter) :
  map fst (counter_incr x c)
  = if counter_mem c x then map fst c else map fst c ++ [x].
Proof.
  induction c as [|[k n] c IH]; [reflexivity|].
  simpl. destruct (decide (k = x)) as [->|Hne]; [reflexivity|].
  simpl. rewrite IH. destruct (counter_mem c x); reflexivity.
Qed.

Lemma Counter_NoDup (ws : list str) : NoDup (map fst (Counter ws)).
Proof.
  unfold Counter.
  assert (forall c, NoDup (map fst c) ->
                    NoDup (map fst (foldl (fun c t => counter_incr t c) c ws))) as H.
  { induction ws as [|t ws IH]; intros c Hc; [exact Hc|].
    simpl. apply IH. rewrite counter_incr_keys.
    destruct (counter_mem c t) eqn:E; [exact Hc|].
    apply NoDup_app. split; [exact Hc|]. split; [|apply NoDup_singleton].
    intros x Hx Hx'. apply list_elem_of_singleton in Hx'. subst x.
    apply list_elem_of_In, counter_keys_mem in Hx. congruence. }
  apply (H []). constructor.
Qed.

Lemma counter_entry (c : counter) (k : str) (n : nat) :
  NoDup (map fst c) -> In (k, n) c ->
  counter_get c k = n /\ counter_mem c k = true.
Proof.
  induction c as [|[k' n'] c IH]; intros Hnd Hin; [destruct Hin|].
  simpl in Hnd. apply NoDup_cons in Hnd. destruct Hnd as [Hk' Hnd].
  simpl. destruct Hin as [E|Hin].
  - injection E as -> ->. destruct (decide (k = k)); [tauto | congruence].
  - destruct (decide (k' = k)) as [->|Hne]; [|apply IH; assumption].
    exfalso. apply Hk', list_elem_of_In, in_map_iff. exists (k, n).
    split; [reflexivity | exact Hin].
Qed.

Lemma counter_mem_entry (c : counter) (w : str) :
  counter_mem c w = true -> In (w, counter_get c w) c.
Proof.
  induction c as [|[k n] c IH]; [discriminate|].
  simpl. destruct (decide (k = w)) as [->|Hne]; [left; reflexivity|].
  intros H. right. apply IH, H.
Qed.

Lemma word_freq_entry (min_len : nat) (text k : str) (n : nat) :
  In (k, n) (word_freq min_len text) ->
  n = count_word k (tokenize_words text) /\
  qualifying min_len k = true /\ In k (tokenize_words text).
Proof.
  intros Hin. unfold word_freq in *.
  destruct (counter_entry _ k n (Counter_NoDup _) Hin) as [Hget Hmem].
  apply Counter_mem, filter_In in Hmem. destruct Hmem as [Htok Hq].
  rewrite Counter_get, count_word_filter, Hq in Hget.
  split; [symmetry; exact Hget | split; assumption].
Qed.

Lemma most_common_In (n : nat) (c : counter) (e : str * nat) :
  In e (most_common n c) -> In e c.
Proof.
  unfold most_common. intros H. apply list_elem_of_In in H.
  apply list_elem_of_In. rewrite <- (sort_by_key_perm snd true c).
  apply (subseteq_take n), H.
Qed.

Lemma key_terms_entry (text w : str) :
  In w (key_terms text) ->
  In (w, count_word w (tokenize_words text)) (most_common 10 (word_freq 3 text)) /\
  qualifying 3 w = true /\ In w (tokenize_words text).
Proof.
  unfold key_terms. intros H. apply in_map_iff in H.
  destruct H as ([k n] & <- & Hin). simpl.
  destruct (word_freq_entry 3 text k n (most_common_In _ _ _ Hin)) as (-> & Hq & Ht).
  tauto.
Qed.

Lemma key_terms_length (text : str) : (length (key_terms text) <= 10)%nat.
Proof.
  unfold key_terms, most_common. rewrite length_map, length_take. lia.
Qed.

(** X12: the key terms are tokens of the text that are not stopwords
    and have four characters or more; no term occurs twice among them,
    and there are at most ten. *)
Theorem key_terms_spec (text : str) :
  NoDup (key_terms text) /\
  (length (key_terms text) <= 10)%nat /\
  (forall w, In w (key_terms text) ->
     is_stopword w = false /\ (4 <= length w)%nat /\ In w (tokenize_words text)).
Proof.
  split; [|split; [apply key_terms_length|]].
  - unfold key_terms, most_common.
    apply (sublist_NoDup _ (map fst (sort_by_key snd true (word_freq 3 text)))).
    + rewrite (sort_by_key_perm snd true (word_freq 3 text)). apply Counter_NoDup.
    + apply (fmap_sublist fst), sublist_take.
  - intros w Hw. destruct (key_terms_entry text w Hw) as (_ & Hq & Ht).
    unfold qualifying in Hq. apply andb_true_iff in Hq. destruct Hq as [Hs Hl].
    apply negb_true_iff in Hs. apply Nat.ltb_lt in Hl. split; [exact Hs|]. split; [lia | exact Ht].
Qed.

(** X13: [generate_questions] returns at least one question and at most
    ten; for [max_q] of three or more it returns at most [max_q]. *)
Theorem generate_questions_count (text : str) (max_q : Z) :
  (1 <= length (generate_questions text max_q))%nat /\
  (Z.of_nat (length (generate_questions text max_q)) <= Z.max 3 (Z.min max_q 10))%Z.
Proof.
  rewrite generate_questions_closed.
  pose proof (key_terms_length text) as Hk.
  destruct (imap _ _) as [|q qs] eqn:E; [simpl; lia|].
  rewrite <- E, length_imap, length_take.
  assert (length (imap (fun i term => format_term (nth (i mod 5) templates []) term)
                    (take (Z.to_nat max_q) (key_terms text))) <> 0)%nat as Hne
      by (rewrite E; discriminate).
  rewrite length_imap, length_take in Hne. lia.
Qed.


(** ** [generate_questions]: the ranking and the questions *)

(** Descending sort: the result is ordered by the key, highest first. *)
Lemma sort_by_key_desc {A} (key : A -> nat) l :
  StronglySorted (fun x y => (key y <= key x)%nat) (sort_by_key key true l).
Proof.
  unfold sort_by_key. induction l as [|x l IH]; simpl; [constructor|].
  revert IH. generalize (foldr (insert_by (fun x y => Nat.leb (key y) (key x))) [] l).
  clear l. intros l. induction 1 as [|y l Hl IH Hy]; simpl.
  - repeat constructor.
  - destruct (Nat.leb_spec (key y) (key x)).
    + constructor; [constructor; assumption|].
      constructor; [assumption|].
      eapply Forall_impl; [exact Hy|]. simpl. intros z Hz. lia.
    + constructor; [exact IH|].
      rewrite insert_by_perm. constructor; [lia | exact Hy].
Qed.

Lemma StronglySorted_with {A} (R : A -> A -> Prop) (P : A -> Prop) l :
  StronglySorted R l -> Forall P l ->
  StronglySorted (fun x y => R x y /\ P x /\ P y) l.
Proof.
  induction 1 as [|x l _ IH Hx]; intros Hall; [constructor|].
  inversion Hall as [|? ? Hpx Hpl]; subst. constructor; [apply IH, Hpl|].
  rewrite List.Forall_forall in *. intros y Hy. auto.
Qed.

(** X14: the key terms are the most frequent qualifying tokens: they
    are listed from the most frequent to the least frequent, and a
    qualifying token that is no key term is never more frequent than a
    key term. *)
Theorem key_terms_ranked (text : str) :
  StronglySorted
    (fun a b => (count_word b (tokenize_words text)
                 <= count_word a (tokenize_words text))%nat)
    (key_terms text) /\
  (forall a w,
     In a (key_terms text) ->
     qualifying 3 w = true -> In w (tokenize_words text) ->
     ~ In w (key_terms text) ->
     (count_word w (tokenize_words text) <= count_word a (tokenize_words text))%nat).
Proof.
  pose proof (sort_by_key_desc snd (word_freq 3 text)) as Hs.
  rewrite <- (take_drop 10 (sort_by_key snd true (word_freq 3 text))) in Hs.
  assert (forall e, In e (sort_by_key snd true (word_freq 3 text)) ->
                    snd e = count_word (fst e) (tokenize_words text)) as Hcnt.
  { intros [k n] He. apply list_elem_of_In in He.
    rewrite sort_by_key_perm in He. apply list_elem_of_In in He.
    apply word_freq_entry in He. simpl. tauto. }
  split.
  - unfold key_terms, most_common.
    apply (StronglySorted_fmap fst
             (fun x y => (snd y <= snd x)%nat /\
                         snd x = count_word (fst x) (tokenize_words text) /\
                         snd y = count_word (fst y) (tokenize_words text))).
    + intros x y (Hle & Ex & Ey). rewrite <- Ex, <- Ey. exact Hle.
    + apply StronglySorted_with.
      * apply (StronglySorted_app_1_l _ _ _ Hs).
      * apply List.Forall_forall. intros e He. apply Hcnt.
        apply list_elem_of_In. apply (subseteq_take 10). apply list_elem_of_In, He.
  - intros a w Ha Hq Hw Hout.
    destruct (key_terms_entry text a Ha) as (Hae & _ & _).
    unfold most_common in Hae.
    assert (In (w, count_word w (tokenize_words text)) (word_freq 3 text)) as Hwe.
    { assert (counter_mem (word_freq 3 text) w = true) as Hm.
      { unfold word_freq. apply Counter_mem, filter_In. tauto. }
      pose proof (counter_mem_entry _ _ Hm) as He.
      assert (counter_get (word_freq 3 text) w = count_word w (tokenize_words text))
        as Eg by (unfold word_freq; rewrite Counter_get, count_word_filter, Hq; reflexivity).
      rewrite Eg in He. exact He. }
    apply list_elem_of_In in Hwe.
    rewrite <- (sort_by_key_perm snd true (word_freq 3 text)) in Hwe.
    rewrite <- (take_drop 10 (sort_by_key snd true (word_freq 3 text))) in Hwe.
    apply elem_of_app in Hwe. destruct Hwe as [Hwe|Hwe].
    + exfalso. apply Hout. unfold key_terms, most_common.
      apply in_map_iff. exists (w, count_word w (tokenize_words text)).
      split; [reflexivity | apply list_elem_of_In, Hwe].
    + apply list_elem_of_In in Hae.
      exact (StronglySorted_app_1_elem_of _ _ _ _ _ Hs Hae Hwe).
Qed.

(** The text of each template before and after its field. *)
Lemma format_term_template (i : nat) :
  exists pre post, forall term,
    format_term (nth (i mod 5) templates []) term = pre ++ term ++ post.
Proof.
  pose proof (Nat.mod_upper_bound i 5 ltac:(lia)) as Hlt.
  destruct (i mod 5)%nat as [|[|[|[|[|n]]]]]; [| | | | |lia].
  - exists (py "Define: '"), (py "'."). reflexivity.
  - exists (py "Explain the importance of '"), (py "' in the topic."). reflexivity.
  - exists (py "Give one example of how '"), (py "' is used."). reflexivity.
  - exists (py "What are the benefits or risks related to '"), (py "'?"). reflexivity.
  - exists (py "How does '"), (py "' impact users or systems?"). reflexivity.
Qed.

(** X15: unless it returns the fallback questions, [generate_questions]
    returns one question for each of the first key terms, in their
    order, and the question contains its key term. *)
Theorem generate_questions_terms (text : str) (max_q : Z) :
  generate_questions text max_q = FALLBACK_QUESTIONS \/
  (length (generate_questions text max_q)
   = Nat.min (Z.to_nat max_q) (length (key_terms text)) /\
   forall i q,
     generate_questions text max_q !! i = Some q ->
     exists term pre post,
       key_terms text !! i = Some term /\ q = pre ++ term ++ post).
Proof.
  rewrite generate_questions_closed.
  destruct (imap _ _) as [|q0 qs] eqn:E; [left; reflexivity|].
  right. rewrite <- E. split; [rewrite length_imap, length_take; reflexivity|].
  intros i q Hq. rewrite list_lookup_imap in Hq.
  destruct (take (Z.to_nat max_q) (key_terms text) !! i) as [term|] eqn:Et;
    [|discriminate].
  apply lookup_take_Some in Et. destruct Et as [Et _].
  injection Hq as <-.
  destruct (format_term_template i) as (pre & post & Hf).
  exists term, pre, post. split; [exact Et | apply Hf].
Qed.


(** ** [allowed_file] *)

Lemma rsplit_dot_no_dot (t : str) : has_dot t = false -> rsplit_dot t = [t].
Proof.
  unfold has_dot. induction t as [|c t IH]; [reflexivity|].
  cbn [existsb rsplit_dot]. intros H. apply orb_false_iff in H. destruct H as [Hc Ht].
  rewrite (IH Ht), N.eqb_sym, Hc. reflexivity.
Qed.

Lemma rsplit_dot_last (base ext : str) :
  has_dot ext = false -> rsplit_dot (base ++ 46 :: ext) = [base; ext].
Proof.
  intros Hext. induction base as [|c base IH].
  - cbn [app rsplit_dot]. rewrite (rsplit_dot_no_dot ext Hext). reflexivity.
  - cbn [app rsplit_dot]. rewrite IH. reflexivity.
Qed.

Lemma has_dot_split (t : str) :
  has_dot t = true -> exists base ext, t = base ++ 46 :: ext /\ has_dot ext = false.
Proof.
  unfold has_dot. induction t as [|c t IH]; [discriminate|].
  cbn [existsb]. destruct (existsb (N.eqb 46) t) eqn:Ht.
  - intros _. destruct (IH eq_refl) as (base & ext & -> & Hext).
    exists (c :: base), ext. split; [reflexivity | exact Hext].
  - rewrite orb_false_r. intros Hc. apply N.eqb_eq in Hc. subst c.
    exists [], t. split; [reflexivity | exact Ht].
Qed.

Lemma has_dot_app (base ext : str) : has_dot (base ++ 46 :: ext) = true.
Proof.
  unfold has_dot. rewrite existsb_app. cbn [existsb].
  rewrite N.eqb_refl. apply orb_true_r.
Qed.

(** X16: a filename is allowed exactly when it has a dot and what
    follows its last dot is, in lowercase, [pdf] or [txt]; so a name
    ending in [.PDF] is allowed whatever comes before, and a name ending
    in [.pdf.exe] is not. *)
Theorem allowed_file_iff (filename : str) :
  (allowed_file filename = true <->
   exists base ext,
     filename = base ++ [46] ++ ext /\ has_dot ext = false /\
     (lower ext = py "pdf" \/ lower ext = py "txt")) /\
  allowed_file (filename ++ py ".PDF") = true /\
  allowed_file (filename ++ py ".pdf.exe") = false.
Proof.
  assert (forall base ext, has_dot ext = false ->
            allowed_file (base ++ 46 :: ext)
            = bool_decide (lower ext ∈ ALLOWED_EXTENSIONS)) as Hlast.
  { intros base ext Hext. unfold allowed_file.
    rewrite has_dot_app, (rsplit_dot_last base ext Hext). reflexivity. }
  split; [split|split].
  - intros H. assert (has_dot filename = true) as Hd.
    { unfold allowed_file in H. apply andb_true_iff in H. tauto. }
    destruct (has_dot_split filename Hd) as (base & ext & -> & Hext).
    rewrite (Hlast base ext Hext) in H. apply bool_decide_eq_true in H.
    exists base, ext. split; [reflexivity|]. split; [exact Hext|].
    apply list_elem_of_In in H. simpl in H. destruct H as [H|[H|[]]]; auto.
  - intros (base & ext & -> & Hext & Hl). cbn [app].
    rewrite (Hlast base ext Hext). apply bool_decide_eq_true, list_elem_of_In.
    simpl. destruct Hl as [->| ->]; auto.
  - apply (Hlast filename (py "PDF") eq_refl).
  - change (filename ++ py ".pdf.exe") with (filename ++ py ".pdf" ++ 46 :: py "exe").
    rewrite app_assoc. apply (Hlast (filename ++ py ".pdf") (py "exe") eq_refl).
Qed.

(** ** [read_pdf] *)

Lemma clean_text_whitespace (x : str) : forallb isspace x = true -> clean_text x = [].
Proof.
  intros H. apply filter_nonspace_nil in H.
  assert (List.filter nonspace (clean_text x) = List.filter nonspace x) as E
      by filter_clean_text.
  rewrite H in E.
  pose proof (strip_head
    (sub_runs2 is_hspace 0x20 false
       (sub_runs2 is_newline 0x0A false (replace_char 0x0D 0x0A x)))) as Hh.
  fold (clean_text x) in Hh.
  destruct (clean_text x) as [|c t]; [reflexivity|].
  simpl in Hh, E. unfold nonspace in E. rewrite Hh in E. discriminate.
Qed.

Lemma filter_nonspace_join (parts : list str) :
  List.filter nonspace (join [0x0A] parts)
  = concat (map (List.filter nonspace) parts).
Proof.
  induction parts as [|p parts IH]; [reflexivity|].
  destruct parts as [|q parts].
  - simpl. rewrite app_nil_r. reflexivity.
  - change (join [0x0A] (p :: q :: parts)) with (p ++ [0x0A] ++ join [0x0A] (q :: parts)).
    rewrite !List.filter_app, IH. reflexivity.
Qed.

(** X17: no character is lost between extraction and cleaning: the
    characters of the cleaned text of a PDF that are not whitespace are
    those of its pages, in page order; and when no page has any text
    besides whitespace (a scanned document) the cleaned text is
    empty. *)
Theorem read_pdf_clean_text (pages : list (option str)) :
  List.filter nonspace (clean_text (read_pdf pages))
  = concat (map (fun page_text => List.filter nonspace (default [] page_text)) pages) /\
  (forallb (fun page_text => forallb isspace (default [] page_text)) pages = true ->
   clean_text (read_pdf pages) = []).
Proof.
  assert (List.filter nonspace (read_pdf pages)
          = concat (map (fun page_text => List.filter nonspace (default [] page_text))
                      pages)) as E.
  { unfold read_pdf. rewrite filter_nonspace_join, map_map. reflexivity. }
  split.
  - rewrite <- E. filter_clean_text.
  - intros H. apply clean_text_whitespace, filter_nonspace_nil. rewrite E. clear E.
    induction pages as [|p pages IH]; [reflexivity|].
    cbn [forallb] in H. apply andb_true_iff in H. destruct H as [Hp H].
    cbn [map concat]. apply filter_nonspace_nil in Hp. rewrite Hp. apply IH, H.
Qed.


(** ** [index] *)

Lemma allowed_file_nonempty (name : str) : allowed_file name = true -> name <> [].
Proof. intros H ->. discriminate H. Qed.

(** X18: [index] renders the result page only for a POST request whose
    file has an allowed name and was read without an exception, and
    whose cleaned text has 200 characters or more; the page carries the
    sanitised filename, the summary and the questions of the cleaned
    text, and between one and six questions. *)
Theorem index_result
    (secure_filename : str -> str)
    (pdf_pages : str -> read_result (list (option str)))
    (txt_content : str -> read_result str)
    (r : request) (filename summary : str) (questions : list str)
    (H : index secure_filename pdf_pages txt_content r
         = RenderResult filename summary questions) :
  req_method r = py "POST" /\
  exists name raw_text,
    req_file r = Some name /\ allowed_file name = true /\
    filename = secure_filename name /\
    ((exists pages, pdf_pages filename = Content pages /\ raw_text = read_pdf pages) \/
     txt_content filename = Content raw_text) /\
    (200 <= length (clean_text raw_text))%nat /\
    summary = summarize_text (clean_text raw_text) 6 /\
    questions = generate_questions (clean_text raw_text) 6 /\
    (1 <= length questions <= 6)%nat.
Proof.
  unfold index in H.
  destruct (bool_decide_reflect (req_method r = py "POST")) as [Hm|_]; [|discriminate H].
  split; [exact Hm|].
  destruct (req_file r) as [name|]; [|discriminate H].
  destruct name as [|c n]; [discriminate H|].
  destruct (allowed_file (c :: n)) eqn:Ha;
    [|rewrite andb_false_r in H; discriminate H].
  rewrite andb_true_r in H. cbn [negb bool_decide] in H.
  destruct (decide (c :: n = [])); [discriminate|]. cbn [negb] in H.
  destruct (rsplit_dot (secure_filename (c :: n)) !! 1%nat) as [e|]; [|discriminate H].
  assert (forall raw_text,
            (if Nat.ltb (length (clean_text raw_text)) 200
             then RedirectFlash IndexUrl MSG_TOO_SHORT
             else RenderResult (secure_filename (c :: n))
                    (summarize_text (clean_text raw_text) 6)
                    (generate_questions (clean_text raw_text) 6))
            = RenderResult filename summary questions ->
            filename = secure_filename (c :: n) /\
            (200 <= length (clean_text raw_text))%nat /\
            summary = summarize_text (clean_text raw_text) 6 /\
            questions = generate_questions (clean_text raw_text) 6 /\
            (1 <= length questions <= 6)%nat) as Hfinal.
  { intros raw_text Hr.
    destruct (Nat.ltb_spec (length (clean_text raw_text)) 200); [discriminate Hr|].
    injection Hr as <- <- <-. repeat (split; [first [reflexivity | assumption]|]).
    rewrite generate_questions_closed.
    pose proof (key_terms_length (clean_text raw_text)) as Hk.
    destruct (imap _ _) as [|q qs] eqn:E; [simpl; lia|].
    rewrite <- E, length_imap, length_take.
    assert (length (imap (fun i term => format_term (nth (i mod 5) templates []) term)
                      (take (Z.to_nat 6) (key_terms (clean_text raw_text)))) <> 0)%nat
      as Hne by (rewrite E; discriminate).
    rewrite length_imap, length_take in Hne. lia. }
  destruct (bool_decide (lower e = py "pdf")).
  - destruct (pdf_pages (secure_filename (c :: n))) as [pages|err] eqn:Ep;
      [|discriminate H].
    destruct (Hfinal _ H) as (-> & H1 & H2 & H3 & H4).
    exists (c :: n), (read_pdf pages).
    repeat (split; [first [reflexivity | assumption]|]).
    split; [left; exists pages; split; [exact Ep | reflexivity]|].
    repeat (split; [assumption|]). exact H4.
  - destruct (txt_content (secure_filename (c :: n))) as [raw|err] eqn:Et;
      [|discriminate H].
    destruct (Hfinal _ H) as (-> & H1 & H2 & H3 & H4).
    exists (c :: n), raw.
    repeat (split; [first [reflexivity | assumption]|]).
    split; [right; exact Et|].
    repeat (split; [assumption|]). exact H4.
Qed.

(** X19: the allowed extension is tested on the filename the client
    sent and taken again from the sanitised filename: when the
    sanitised name of an allowed file has no dot, [index] raises
    [IndexError] (and flashes no message). *)
Theorem index_sanitised_without_dot
    (secure_filename : str -> str)
    (pdf_pages : str -> read_result (list (option str)))
    (txt_content : str -> read_result str)
    (r : request) (name : str)
    (Hmethod : req_method r = py "POST")
    (Hfile : req_file r = Some name)
    (Hallowed : allowed_file name = true)
    (Hdot : has_dot (secure_filename name) = false) :
  index secure_filename pdf_pages txt_content r = RaiseIndexError.
Proof.
  unfold index. rewrite Hfile, (bool_decide_eq_true_2 _ Hmethod), Hallowed.
  pose proof (allowed_file_nonempty name Hallowed) as Hne.
  destruct name as [|c n]; [congruence|].
  rewrite (bool_decide_eq_false_2 _ Hne). cbn [negb andb].
  rewrite (rsplit_dot_no_dot _ Hdot). reflexivity.
Qed.

(** X20: a PDF none of whose pages has any text besides whitespace (a
    scanned document) is answered with the "too short" message. *)
Theorem index_blank_pdf
    (secure_filename : str -> str)
    (pdf_pages : str -> read_result (list (option str)))
    (txt_content : str -> read_result str)
    (r : request) (name base ext : str) (pages : list (option str))
    (Hmethod : req_method r = py "POST")
    (Hfile : req_file r = Some name)
    (Hallowed : allowed_file name = true)
    (Hname : secure_filename name = base ++ [46] ++ ext)
    (Hext : has_dot ext = false)
    (Hpdf : lower ext = py "pdf")
    (Hread : pdf_pages (secure_filename name) = Content pages)
    (Hblank : forallb (fun page_text => forallb isspace (default [] page_text)) pages
              = true) :
  index secure_filename pdf_pages txt_content r = RedirectFlash IndexUrl MSG_TOO_SHORT.
Proof.
  unfold index. rewrite Hfile, (bool_decide_eq_true_2 _ Hmethod), Hallowed.
  pose proof (allowed_file_nonempty name Hallowed) as Hne.
  destruct name as [|c n]; [congruence|].
  rewrite (bool_decide_eq_false_2 _ Hne). cbn [negb andb].
  rewrite Hread, Hname. cbn [app]. rewrite (rsplit_dot_last base ext Hext).
  cbn [lookup list_lookup]. rewrite (bool_decide_eq_true_2 _ Hpdf).
  assert (clean_text (read_pdf pages) = []) as ->; [|reflexivity].
  apply clean_text_whitespace, filter_nonspace_nil.
  unfold read_pdf. rewrite filter_nonspace_join, map_map.
  clear Hread. induction pages as [|p pages IH]; [reflexivity|].
  cbn [forallb] in Hblank. apply andb_true_iff in Hblank. destruct Hblank as [Hp Hb].
  cbn [map concat]. apply filter_nonspace_nil in Hp. rewrite Hp. apply IH, Hb.
Qed.


(** ** The summary and the questions as they are shown *)

Lemma has_adj_app p (a b : str) :
  has_adj p (a ++ b)
  = has_adj p a || has_adj p b
    || (from_option p false (last a) && from_option p false (head b)).
Proof.
  induction a as [|x a IH]; [simpl; rewrite orb_false_r; reflexivity|].
  rewrite <- app_comm_cons, !has_adj_cons, IH.
  destruct a as [|y a'].
  - simpl. destruct (p x), (from_option p false (head b)), (has_adj p b); reflexivity.
  - change (last (x :: y :: a')) with (last (y :: a')).
    cbn [app head from_option].
    destruct (p x), (p y), (has_adj p (y :: a')), (has_adj p b),
      (from_option p false (last (y :: a')) && from_option p false (head b));
      reflexivity.
Qed.

Lemma split_sentences_normal (text s : str) :
  In s (split_sentences text) ->
  has_adj isspace s = false /\ only_spaces s = true.
Proof.
  intros Hs. unfold split_sentences in Hs.
  destruct (normalize_spaces text) as [|c t] eqn:E; [destruct Hs|].
  apply in_map_iff in Hs. destruct Hs as (p & <- & Hp).
  apply filter_In in Hp. destruct Hp as [Hp _].
  destruct (strip_infix p) as (a & b & Ep).
  pose proof (split_from_in_order (c :: t) (Piece false [])) as Hord.
  destruct (in_order_infix _ _ Hord p Hp) as (a' & b' & Et). simpl in Et.
  pose proof (normalize_spaces_adj text) as Hadj.
  pose proof (normalize_spaces_only_spaces text) as Hsp.
  rewrite E, Et, Ep in Hadj, Hsp. split.
  - apply has_adj_app_r, has_adj_app_l, has_adj_app_r, has_adj_app_l in Hadj. exact Hadj.
  - apply only_spaces_infix, only_spaces_infix in Hsp. exact Hsp.
Qed.

Lemma join_single_spaces (l : list str) :
  Forall (fun s => has_adj isspace s = false /\ only_spaces s = true /\
                   space_at (head s) = false /\ space_at (last s) = false /\
                   s <> []) l ->
  has_adj isspace (join [0x20] l) = false /\
  only_spaces (join [0x20] l) = true /\
  space_at (head (join [0x20] l)) = false.
Proof.
  induction 1 as [|s l (Hadj & Hsp & Hh & Hl & Hne) Hall IH]; [repeat split|].
  destruct l as [|s' l'].
  - simpl. tauto.
  - rewrite join_cons by discriminate.
    destruct IH as (IH1 & IH2 & IH3).
    set (t := join [0x20] (s' :: l')) in *.
    split; [|split].
    + unfold space_at in Hl, IH3. rewrite has_adj_app, Hadj, Hl. cbn [app].
      rewrite has_adj_cons, IH1, IH3. reflexivity.
    + unfold only_spaces in *. rewrite !forallb_app, Hsp, IH2. reflexivity.
    + destruct s as [|c s0]; [congruence | exact Hh].
Qed.

(** X21: whatever [summarize_text] returns, a summary or a fallback
    message, is one line of text: its only whitespace are single
    spaces. *)
Theorem summarize_text_single_spaces (text : str) (num_sentences : Z) :
  has_adj isspace (summarize_text text num_sentences) = false /\
  only_spaces (summarize_text text num_sentences) = true.
Proof.
  unfold summarize_text.
  destruct (split_sentences text) as [|s0 ss] eqn:Es; [split; reflexivity|].
  destruct (word_freq 2 text) as [|e freq] eqn:Ef; [split; reflexivity|].
  pose proof (summary_sublist (e :: freq) (s0 :: ss) num_sentences) as Hsub.
  destruct (join_single_spaces
              (map sc_text
                 (sort_by_key sc_idx false
                    (top_sentences (e :: freq) (s0 :: ss) num_sentences))))
    as (H1 & H2 & _); [|split; assumption].
  apply List.Forall_forall. intros s Hs.
  apply list_elem_of_In in Hs. apply (elem_of_sublist _ _ _ Hs) in Hsub.
  apply list_elem_of_In in Hsub. rewrite <- Es in Hsub.
  destruct (split_sentences_normal text s Hsub) as [Ha Hb].
  destruct (split_sentences_elem text s Hsub) as (Hlen & Hh & Hl).
  repeat (split; [assumption|]).
  intros ->. simpl in Hlen. lia.
Qed.

Lemma format_term_inj (i j : nat) (x y : str) :
  format_term (nth (i mod 5) templates []) x
  = format_term (nth (j mod 5) templates []) y ->
  x = y.
Proof.
  intros H. destruct (decide (i mod 5 = j mod 5)%nat) as [E|Hne].
  - rewrite <- E in H. destruct (format_term_template i) as (pre & post & Hf).
    rewrite !Hf in H. apply app_inv_head, app_inv_tail in H. exact H.
  - exfalso.
    pose proof (Nat.mod_upper_bound i 5 ltac:(lia)) as Hi.
    pose proof (Nat.mod_upper_bound j 5 ltac:(lia)) as Hj.
    destruct (i mod 5)%nat as [|[|[|[|[|?]]]]]; try lia;
      destruct (j mod 5)%nat as [|[|[|[|[|?]]]]]; try lia;
      try congruence; discriminate H.
Qed.

(** X22: [generate_questions] never returns the same question twice. *)
Theorem generate_questions_NoDup (text : str) (max_q : Z) :
  NoDup (generate_questions text max_q).
Proof.
  rewrite generate_questions_closed.
  destruct (imap _ _) as [|q0 qs] eqn:E.
  - apply NoDup_alt. intros i j q Hi Hj.
    destruct i as [|[|[|i]]], j as [|[|[|j]]]; try reflexivity;
      exfalso; vm_compute in Hi, Hj; congruence.
  - rewrite <- E. apply NoDup_alt. intros i j q Hi Hj.
    rewrite list_lookup_imap in Hi, Hj.
    destruct (take (Z.to_nat max_q) (key_terms text) !! i) as [x|] eqn:Ex;
      [|discriminate Hi].
    destruct (take (Z.to_nat max_q) (key_terms text) !! j) as [y|] eqn:Ey;
      [|discriminate Hj].
    simpl in Hi, Hj. injection Hi as Hi. injection Hj as Hj.
    rewrite <- Hj in Hi. apply format_term_inj in Hi. subst y.
    apply lookup_take_Some in Ex, Ey. destruct Ex as [Ex _], Ey as [Ey _].
    assert (NoDup (key_terms text)) as Hnd.
    { unfold key_terms, most_common.
      apply (sublist_NoDup _ (map fst (sort_by_key snd true (word_freq 3 text)))).
      - rewrite (sort_by_key_perm snd true (word_freq 3 text)). apply Counter_NoDup.
      - apply (fmap_sublist fst), sublist_take. }
    exact (proj1 (NoDup_alt _) Hnd i j x Ex Ey).
Qed.


(** ** Cleaning and segmenting *)

Lemma sub_runs1_replace (a b : N) (t : str) :
  isspace a = true -> isspace b = true ->
  forall r, sub_runs1 isspace 0x20 r (replace_char a b t) = sub_runs1 isspace 0x20 r t.
Proof.
  intros Ha Hb. unfold replace_char. induction t as [|c t IH]; intros r; [reflexivity|].
  cbn [map sub_runs1]. destruct (N.eqb_spec c a) as [->|_].
  - rewrite Ha, Hb, !IH. reflexivity.
  - rewrite !IH. reflexivity.
Qed.

Lemma sub_runs1_space (c : N) (t : str) (r : bool) :
  isspace c = true ->
  sub_runs1 isspace 0x20 r (c :: t)
  = (if r then [] else [0x20]) ++ sub_runs1 isspace 0x20 true t.
Proof. intros H. cbn [sub_runs1]. rewrite H. destruct r; reflexivity. Qed.

Lemma sub_runs1_nonspace (c : N) (t : str) (r : bool) :
  isspace c = false ->
  sub_runs1 isspace 0x20 r (c :: t) = c :: sub_runs1 isspace 0x20 false t.
Proof. intros H. cbn [sub_runs1]. rewrite H. reflexivity. Qed.

Lemma sub_runs2_in_run p rep (c : N) (t : str) :
  p c = true -> sub_runs2 p rep true (c :: t) = sub_runs2 p rep true t.
Proof. intros H. cbn [sub_runs2]. rewrite H. reflexivity. Qed.

Lemma sub_runs2_start p rep (c d : N) (t : str) :
  p c = true -> p d = true ->
  sub_runs2 p rep false (c :: d :: t) = rep :: sub_runs2 p rep true (d :: t).
Proof.
  intros Hc Hd. change (sub_runs2 p rep false (c :: d :: t))
    with (if p c then if p d then rep :: sub_runs2 p rep true (d :: t)
                      else c :: sub_runs2 p rep false (d :: t)
          else c :: sub_runs2 p rep false (d :: t)).
  rewrite Hc, Hd. reflexivity.
Qed.

Lemma sub_runs2_lone p rep (c d : N) (t : str) :
  p c = true -> p d = false ->
  sub_runs2 p rep false (c :: d :: t) = c :: sub_runs2 p rep false (d :: t).
Proof.
  intros Hc Hd. change (sub_runs2 p rep false (c :: d :: t))
    with (if p c then if p d then rep :: sub_runs2 p rep true (d :: t)
                      else c :: sub_runs2 p rep false (d :: t)
          else c :: sub_runs2 p rep false (d :: t)).
  rewrite Hc, Hd. reflexivity.
Qed.

Lemma sub_runs2_other p rep (c : N) (t : str) (r : bool) :
  p c = false -> sub_runs2 p rep r (c :: t) = c :: sub_runs2 p rep false t.
Proof. intros H. cbn [sub_runs2]. rewrite H. reflexivity. Qed.

Lemma sub_runs1_sub_runs2 p rep (t : str) :
  (forall c, p c = true -> isspace c = true) -> isspace rep = true ->
  (forall r, sub_runs1 isspace 0x20 r (sub_runs2 p rep false t)
             = sub_runs1 isspace 0x20 r t) /\
  sub_runs1 isspace 0x20 true (sub_runs2 p rep true t)
  = sub_runs1 isspace 0x20 true t.
Proof.
  intros Hp Hrep. induction t as [|c t [IH1 IH2]]; [split; reflexivity|].
  destruct (p c) eqn:Hc.
  - pose proof (Hp c Hc) as Hs. split.
    + intros r. destruct t as [|d t']; [cbn [sub_runs2]; rewrite Hc; reflexivity|].
      destruct (p d) eqn:Hd.
      * rewrite (sub_runs2_start p rep c d t' Hc Hd).
        rewrite (sub_runs1_space rep _ r Hrep), IH2, (sub_runs1_space c _ r Hs).
        reflexivity.
      * rewrite (sub_runs2_lone p rep c d t' Hc Hd).
        rewrite (sub_runs1_space c _ r Hs), (IH1 true), (sub_runs1_space c _ r Hs).
        reflexivity.
    + rewrite (sub_runs2_in_run p rep c t Hc), IH2, (sub_runs1_space c t true Hs).
      reflexivity.
  - assert (forall r r', sub_runs1 isspace 0x20 r (sub_runs2 p rep r' (c :: t))
                         = sub_runs1 isspace 0x20 r (c :: t)) as H.
    { intros r r'. rewrite (sub_runs2_other p rep c t r' Hc).
      destruct (isspace c) eqn:Hs.
      - rewrite !(sub_runs1_space c _ r Hs), (IH1 true). reflexivity.
      - rewrite !(sub_runs1_nonspace c _ r Hs), (IH1 false). reflexivity. }
    split; [intros r|]; apply H.
Qed.

Lemma lstrip_sub_runs1 (t : str) :
  forall r, lstrip (sub_runs1 isspace 0x20 r t) = sub_runs1 isspace 0x20 false (lstrip t).
Proof.
  induction t as [|c t IH]; intros r; [reflexivity|].
  cbn [sub_runs1 lstrip]. destruct (isspace c) eqn:Hc.
  - destruct r; [apply IH|]. cbn [lstrip]. change (isspace 0x20) with true. cbn iota.
    apply IH.
  - cbn [lstrip sub_runs1]. rewrite Hc. reflexivity.
Qed.

Lemma lstrip_allspace (t : str) : forallb isspace t = true -> lstrip t = [].
Proof.
  induction t as [|c t IH]; [reflexivity|].
  simpl. intros H. apply andb_true_iff in H. destruct H as [-> H]. apply IH, H.
Qed.

Lemma lstrip_snoc (u : str) (c : N) :
  lstrip (u ++ [c])
  = if forallb isspace u then (if isspace c then [] else [c]) else lstrip u ++ [c].
Proof.
  induction u as [|x u IH]; [reflexivity|].
  cbn [app lstrip forallb]. destruct (isspace x); [exact IH | reflexivity].
Qed.

Lemma forallb_reverse {A} (f : A -> bool) (l : list A) :
  forallb f (reverse l) = forallb f l.
Proof.
  induction l as [|x l IH]; [reflexivity|].
  rewrite reverse_cons, forallb_app, IH. simpl.
  rewrite andb_true_r. apply andb_comm.
Qed.

(** [rstrip], from the left. *)
Lemma rstrip_cons (c : N) (t : str) :
  rstrip (c :: t) = if forallb isspace (c :: t) then [] else c :: rstrip t.
Proof.
  unfold rstrip. rewrite reverse_cons, lstrip_snoc, forallb_reverse.
  cbn [forallb]. destruct (forallb isspace t) eqn:Ht.
  - rewrite andb_true_r.
    rewrite (lstrip_allspace (reverse t)) by (rewrite forallb_reverse; exact Ht).
    destruct (isspace c); reflexivity.
  - rewrite andb_false_r, reverse_app. reflexivity.
Qed.

Lemma sub_runs1_allspace (t : str) :
  forall r, forallb isspace (sub_runs1 isspace 0x20 r t) = forallb isspace t.
Proof.
  induction t as [|c t IH]; intros r; [reflexivity|].
  cbn [sub_runs1 forallb]. destruct (isspace c) eqn:Hc.
  - destruct r; [apply IH|]. cbn [forallb]. rewrite IH. reflexivity.
  - cbn [forallb]. rewrite Hc. reflexivity.
Qed.

Lemma rstrip_allspace (t : str) : forallb isspace t = true -> rstrip t = [].
Proof.
  intros H. unfold rstrip. rewrite lstrip_allspace; [reflexivity|].
  rewrite forallb_reverse. exact H.
Qed.

Lemma rstrip_sub_runs1 (t : str) :
  forall r, rstrip (sub_runs1 isspace 0x20 r t) = sub_runs1 isspace 0x20 r (rstrip t).
Proof.
  induction t as [|c t IH]; intros r; [reflexivity|].
  rewrite (rstrip_cons c t). cbn [sub_runs1 forallb]. destruct (isspace c) eqn:Hc.
  - cbn [andb]. destruct (forallb isspace t) eqn:Ht.
    + apply rstrip_allspace. destruct r; [rewrite sub_runs1_allspace; exact Ht|].
      cbn [forallb]. rewrite sub_runs1_allspace, Ht. reflexivity.
    + cbn [sub_runs1]. rewrite Hc. destruct r; [apply IH|].
      rewrite rstrip_cons. cbn [forallb]. rewrite sub_runs1_allspace, Ht, andb_false_r.
      rewrite IH. reflexivity.
  - cbn [andb sub_runs1]. rewrite Hc, rstrip_cons. cbn [forallb]. rewrite Hc.
    cbn [andb]. rewrite IH. reflexivity.
Qed.

Lemma normalize_spaces_strip (u : str) :
  normalize_spaces (strip u) = normalize_spaces u.
Proof.
  unfold normalize_spaces.
  assert (sub_runs1 isspace 0x20 false (strip u)
          = strip (sub_runs1 isspace 0x20 false u)) as ->.
  { unfold strip. rewrite lstrip_sub_runs1, rstrip_sub_runs1. reflexivity. }
  apply strip_strip.
Qed.

(** X23: cleaning a text does not change its sentences:
    [split_sentences] returns for the cleaned text what it returns for
    the text itself. *)
Theorem split_sentences_clean_text (x : str) :
  normalize_spaces (clean_text x) = normalize_spaces x /\
  split_sentences (clean_text x) = split_sentences x.
Proof.
  assert (normalize_spaces (clean_text x) = normalize_spaces x) as E.
  { unfold clean_text. rewrite normalize_spaces_strip. unfold normalize_spaces.
    rewrite (proj1 (sub_runs1_sub_runs2 is_hspace 0x20 _ hspace_is_space eq_refl)).
    rewrite (proj1 (sub_runs1_sub_runs2 is_newline 0x0A _ newline_is_space eq_refl)).
    rewrite sub_runs1_replace by reflexivity. reflexivity. }
  split; [exact E|]. unfold split_sentences. rewrite E. reflexivity.
Qed.

End Pipeline.

(** ** The case table is not consulted on ASCII text *)

Lemma imap_ext_ascii (l : str) :
  forall f g : nat -> N -> str,
    (forall i c, c < 128 -> f i c = g i c) ->
    Forall (fun c => c < 128) l -> imap f l = imap g l.
Proof.
  induction l as [|c l IH]; intros f g Hfg Hl; [reflexivity|].
  inversion Hl as [|? ? Hc Hl']; subst. simpl. f_equal.
  - apply Hfg, Hc.
  - apply IH; [|exact Hl']. intros i d Hd. apply Hfg, Hd.
Qed.

Lemma lower_ascii_text (table1 table2 : str -> nat -> N -> str) (s : str) :
  Forall (fun c => c < 128) s -> lower table1 s = lower table2 s.
Proof.
  intros H. unfold lower. f_equal. apply imap_ext_ascii; [|exact H].
  intros i c Hc. unfold lower_at. apply N.ltb_lt in Hc. rewrite Hc. reflexivity.
Qed.

(** ** The theorems at concrete inputs *)

Lemma no_case_table_no_upper :
  forall s i c d, 128 <= c -> In d (no_case_table s i c) -> is_ascii_upper d = false.
Proof.
  intros s i c d Hc [<-|[]]. unfold is_ascii_upper.
  apply andb_false_iff. right. apply N.leb_gt. lia.
Defined.

Lemma tokenize_words_maximal_runs_witness :
  (forall s i c d,
      128 <= c -> In d (no_case_table s i c) -> is_ascii_upper d = false) /\
  maximal_runs is_token_char
    (lower no_case_table (py "Hello, World! 123"))
    (tokenize_words no_case_table (py "Hello, World! 123")) /\
  tokenize_words no_case_table (py "Hello, World! 123")
  = map py ["hello"; "world"; "123"]%string.
Proof.
  split; [exact no_case_table_no_upper|].
  destruct (tokenize_words_maximal_runs no_case_table no_case_table_no_upper
              (py "Hello, World! 123")) as (H1 & _ & H3 & _).
  split; [exact H1 | exact H3].
Defined.

Lemma split_sentences_spec_witness :
  sentence_of sample_second (normalize_spaces sample_text) /\
  (25 <= length sample_second)%nat /\
  split_sentences sample_text <> [] /\
  In sample_second (split_sentences sample_text) /\
  in_order (split_sentences sample_text) (normalize_spaces sample_text).
Proof.
  assert (sentence_of sample_second (normalize_spaces sample_text)) as Hs.
  { exists (py "The quick brown fox jumps over the lazy dog. "),
      (py " Foxes are clever animals known for agility.").
    split; [vm_compute; reflexivity|].
    split; [right; exists (py "The quick brown fox jumps over the lazy dog"), 46, 32;
            repeat split; vm_compute; reflexivity|].
    split; [right; exists 32, (py "Foxes are clever animals known for agility.");
            repeat split; vm_compute; reflexivity|].
    repeat split; vm_compute; reflexivity. }
  assert (25 <= length sample_second)%nat as Hlen by (vm_compute; lia).
  destruct (split_sentences_spec sample_text sample_second Hs Hlen)
    as (H1 & H2 & _ & H4).
  split; [exact Hs|]. split; [exact Hlen|]. split; [exact H1|].
  split; [exact H2 | exact H4].
Defined.

Lemma summarize_text_selection_witness :
  (0 <= 2)%Z /\
  summarize_text no_case_table sample_text 2
  = join (py " ") [sample_first; sample_second] /\
  exists sel : list str,
    sublist sel (split_sentences sample_text) /\
    summarize_text no_case_table sample_text 2 = join (py " ") sel /\
    (Z.of_nat (length sel) <= 2)%Z.
Proof.
  split; [lia|]. split; [vm_compute; reflexivity|].
  destruct (summarize_text_selection no_case_table sample_text 2)
    as [[H _]|[(_ & H & _)|(_ & _ & sel & H1 & H2 & H3)]].
  - vm_compute in H. discriminate H.
  - vm_compute in H. discriminate H.
  - exists sel. split; [exact H1|]. split; [exact H2|]. apply H3. lia.
Defined.

Lemma top_sentences_tie_break_witness :
  let freq := word_freq no_case_table 2 tied_text in
  let sentences := split_sentences tied_text in
  let x : scored := (15%nat, 0%nat, py "Alpha beta gamma delta epsilon.") in
  let y : scored := (15%nat, 1%nat, py "Alpha beta gamma delta epsilon!") in
  In x (scored_sentences no_case_table freq sentences) /\
  In y (top_sentences no_case_table freq sentences 2) /\
  sc_score x = sc_score y /\
  (sc_idx x < sc_idx y)%nat /\
  In x (top_sentences no_case_table freq sentences 2).
Proof.
  intros freq sentences x y.
  assert (In x (scored_sentences no_case_table freq sentences)) as Hx
      by (vm_compute; auto).
  assert (In y (top_sentences no_case_table freq sentences 2)) as Hy
      by (vm_compute; auto).
  assert ((sc_idx x < sc_idx y)%nat) as Hidx by (vm_compute; lia).
  split; [exact Hx|]. split; [exact Hy|]. split; [reflexivity|]. split; [exact Hidx|].
  apply (top_sentences_tie_break no_case_table freq sentences 2 x y Hx Hy eq_refl Hidx).
Defined.

Lemma summarize_text_zero_witness :
  split_sentences sample_text <> [] /\
  word_freq no_case_table 2 sample_text <> [] /\
  summarize_text no_case_table sample_text 0 = [].
Proof.
  assert (split_sentences sample_text <> []) as H1 by (vm_compute; discriminate).
  assert (word_freq no_case_table 2 sample_text <> []) as H2 by (vm_compute; discriminate).
  split; [exact H1|]. split; [exact H2|].
  apply (summarize_text_zero no_case_table sample_text H1 H2).
Defined.

Lemma no_qualifying_token_fallbacks_witness :
  (length (List.filter (qualifying 2) (tokenize_words no_case_table stopword_text)) < 1)%nat /\
  (length (List.filter (qualifying 3) (tokenize_words no_case_table stopword_text)) < 1)%nat /\
  summarize_text no_case_table stopword_text 6 = MSG_TOO_LIMITED /\
  generate_questions no_case_table stopword_text 6 = FALLBACK_QUESTIONS.
Proof.
  assert (length (List.filter (qualifying 2)
                    (tokenize_words no_case_table stopword_text)) < 1)%nat as H2
      by (vm_compute; lia).
  assert (length (List.filter (qualifying 3)
                    (tokenize_words no_case_table stopword_text)) < 1)%nat as H3
      by (vm_compute; lia).
  destruct (no_qualifying_token_fallbacks no_case_table stopword_text 6 6) as [Hs Hq].
  split; [exact H2|]. split; [exact H3|]. split.
  - rewrite (Hs H2). vm_compute. reflexivity.
  - exact (Hq H3).
Defined.

Lemma generate_questions_templates_witness :
  (5 <= length (py "alpha"))%nat /\
  is_stopword (py "alpha") = false /\
  (10 <= length (List.filter (fun t => bool_decide (t = py "alpha"))
                   (tokenize_words no_case_table repeated_word_text)))%nat /\
  generate_questions no_case_table repeated_word_text 6 = [py "Define: 'alpha'."].
Proof.
  assert (5 <= length (py "alpha"))%nat as H1 by (vm_compute; lia).
  assert (is_stopword (py "alpha") = false) as H2 by (vm_compute; reflexivity).
  assert (forallb (fun t => bool_decide (t = py "alpha") || is_stopword t)
            (tokenize_words no_case_table repeated_word_text) = true) as H3
      by (vm_compute; reflexivity).
  assert (10 <= length (List.filter (fun t => bool_decide (t = py "alpha"))
                          (tokenize_words no_case_table repeated_word_text)))%nat as H4
      by (vm_compute; lia).
  destruct (generate_questions_templates no_case_table repeated_word_text
              (py "alpha") 6 H1 H2 H3 H4 ltac:(lia)) as (Hq & Hf & _).
  split; [exact H1|]. split; [exact H2|]. split; [exact H4|].
  rewrite Hq, Hf. reflexivity.
Defined.

Lemma generate_questions_never_empty_witness :
  key_terms no_case_table sample_text <> [] /\
  (0 <= 0)%Z /\
  generate_questions no_case_table sample_text 0 = FALLBACK_QUESTIONS /\
  (0 < Z.of_nat (length (generate_questions no_case_table sample_text 0)))%Z /\
  key_terms no_case_table stopword_text = [] /\
  generate_questions no_case_table stopword_text 6 = FALLBACK_QUESTIONS.
Proof.
  split; [vm_compute; discriminate|]. split; [lia|].
  destruct (generate_questions_never_empty no_case_table sample_text 0)
    as (_ & _ & _ & _ & _ & Hneg).
  destruct (Hneg ltac:(lia)) as [H1 H2].
  split; [exact H1|]. split; [exact H2|].
  assert (key_terms no_case_table stopword_text = []) as Hk
      by (vm_compute; reflexivity).
  split; [exact Hk|].
  destruct (generate_questions_never_empty no_case_table stopword_text 6)
    as (_ & _ & _ & _ & Hnone & _).
  exact (proj1 (Hnone (or_introl Hk))).
Defined.

(** ** Inputs at which the specification's sentences fail *)

(** C1 as the specification states it fails for a negative target
    count: with [num_sentences = -1] the slice drops the last ranked
    sentence only, and the summary of the three-sentence sample has two
    sentences, more than -1. *)
Lemma summarize_text_negative_count :
  split_sentences sample_text = [sample_first; sample_second; sample_third] /\
  summarize_text no_case_table sample_text (-1)
  = join (py " ") [sample_first; sample_second] /\
  (Z.of_nat (length [sample_first; sample_second]) > -1)%Z /\
  ((exists sel : list str,
      sublist sel (split_sentences sample_text) /\
      (Z.of_nat (length sel) <= -1)%Z /\
      summarize_text no_case_table sample_text (-1) = join (py " ") sel) -> False).
Proof.
  split; [vm_compute; reflexivity|].
  split; [vm_compute; reflexivity|].
  split; [simpl; lia|].
  intros (sel & _ & H & _). lia.
Qed.

(** C6 as the specification states it fails for a clean text whose only
    sentence has 25 characters, two of them a space and a line break in
    a row: the segmenter first collapses the two into one space, the
    sentence is left with 24 characters and is discarded. *)
Lemma split_sentences_wrapped_line :
  clean_text wrapped_text = wrapped_text /\
  sentence_of wrapped_text wrapped_text /\
  (25 <= length wrapped_text)%nat /\
  length (normalize_spaces wrapped_text) = 24%nat /\
  split_sentences wrapped_text = [].
Proof.
  split; [vm_compute; reflexivity|].
  split.
  { exists [], []. split; [vm_compute; reflexivity|].
    split; [left; reflexivity|]. split; [left; reflexivity|].
    split; [vm_compute; reflexivity|].
    split; vm_compute; reflexivity. }
  split; [vm_compute; lia|].
  split; vm_compute; reflexivity.
Qed.

(** C3 as the specification states it fails for a text without a
    sentence of 25 characters: no token qualifies, and [summarize_text]
    returns the "could not extract" message, not the "too limited" one. *)
Lemma summarize_text_stopwords_short :
  (length (List.filter (qualifying 2)
             (tokenize_words no_case_table short_stopword_text)) < 1)%nat /\
  summarize_text no_case_table short_stopword_text 6 = MSG_NO_TEXT /\
  summarize_text no_case_table short_stopword_text 6 <> MSG_TOO_LIMITED.
Proof.
  split; [vm_compute; lia|].
  split; [vm_compute; reflexivity|].
  vm_compute. discriminate.
Qed.

(** ** The further properties at concrete inputs *)

Lemma split_sentences_shape_witness :
  In sample_second (split_sentences sample_text) /\
  has_boundary sample_second = false /\
  has_adj isspace sample_second = false /\
  only_spaces sample_second = true.
Proof.
  assert (In sample_second (split_sentences sample_text)) as H
      by (vm_compute; auto).
  split; [exact H|]. exact (split_sentences_shape sample_text sample_second H).
Defined.

Lemma split_sentences_no_terminal_witness :
  existsb is_terminal unpunctuated_text = false /\
  split_sentences unpunctuated_text = [unpunctuated_text].
Proof.
  assert (existsb is_terminal unpunctuated_text = false) as H
      by (vm_compute; reflexivity).
  split; [exact H|].
  rewrite (split_sentences_no_terminal unpunctuated_text H).
  vm_compute. reflexivity.
Defined.

Lemma split_sentences_join_witness :
  forallb (fun p => Nat.leb 25 (length p))
    (re_split_sentences (normalize_spaces sample_text)) = true /\
  join [0x20] (split_sentences sample_text) = normalize_spaces sample_text.
Proof.
  assert (forallb (fun p => Nat.leb 25 (length p))
            (re_split_sentences (normalize_spaces sample_text)) = true) as H
      by (vm_compute; reflexivity).
  split; [exact H|]. exact (split_sentences_join sample_text H).
Defined.

Lemma top_sentences_best_witness :
  let freq := word_freq no_case_table 2 sample_text in
  let sentences := split_sentences sample_text in
  let x : scored := (9%nat, 0%nat, sample_first) in
  let y : scored := (5%nat, 2%nat, sample_third) in
  In x (top_sentences no_case_table freq sentences 2) /\
  In y (scored_sentences no_case_table freq sentences) /\
  ~ In y (top_sentences no_case_table freq sentences 2) /\
  (sc_score y <= sc_score x)%nat.
Proof.
  intros freq sentences x y.
  assert (In x (top_sentences no_case_table freq sentences 2)) as Hx
      by (vm_compute; auto).
  assert (In y (scored_sentences no_case_table freq sentences)) as Hy
      by (vm_compute; auto).
  assert (~ In y (top_sentences no_case_table freq sentences 2)) as Hout
      by (vm_compute; intros [H|[H|[]]]; discriminate H).
  split; [exact Hx|]. split; [exact Hy|]. split; [exact Hout|].
  exact (top_sentences_best no_case_table freq sentences 2 x y Hx Hy Hout).
Defined.

Lemma summarize_text_all_witness :
  split_sentences sample_text <> [] /\
  word_freq no_case_table 2 sample_text <> [] /\
  (Z.of_nat (length (split_sentences sample_text)) <= 6)%Z /\
  summarize_text no_case_table sample_text 6
  = join (py " ") (split_sentences sample_text).
Proof.
  assert (split_sentences sample_text <> []) as H1 by (vm_compute; discriminate).
  assert (word_freq no_case_table 2 sample_text <> []) as H2 by (vm_compute; discriminate).
  assert (Z.of_nat (length (split_sentences sample_text)) <= 6)%Z as H3
      by (vm_compute; discriminate).
  split; [exact H1|]. split; [exact H2|]. split; [exact H3|].
  exact (summarize_text_all no_case_table sample_text 6 H1 H2 H3).
Defined.

Lemma summarize_text_negative_witness :
  split_sentences sample_text <> [] /\
  word_freq no_case_table 2 sample_text <> [] /\
  (-1 < 0)%Z /\
  (exists kept dropped : list scored,
     ranked_sentences no_case_table (word_freq no_case_table 2 sample_text)
       (split_sentences sample_text) = kept ++ dropped /\
     dropped = [(5%nat, 2%nat, sample_third)] /\
     summarize_text no_case_table sample_text (-1)
     = join (py " ") (map sc_text (sort_by_key sc_idx false kept))) /\
  summarize_text no_case_table sample_text (-1)
  = join (py " ") [sample_first; sample_second].
Proof.
  assert (split_sentences sample_text <> []) as H1 by (vm_compute; discriminate).
  assert (word_freq no_case_table 2 sample_text <> []) as H2 by (vm_compute; discriminate).
  assert (-1 < 0)%Z as H3 by lia.
  split; [exact H1|]. split; [exact H2|]. split; [exact H3|].
  destruct (summarize_text_negative no_case_table sample_text (-1) H1 H2 H3)
    as [(kept & dropped & Hr & _ & _ & _ & Ht & _ & _ & Hsum) _].
  split.
  - exists kept, dropped. split; [exact Hr|]. split; [|exact Hsum].
    rewrite <- Ht in Hr. vm_compute in Hr.
    injection Hr as Hr. symmetry. exact Hr.
  - rewrite Hsum, <- Ht. vm_compute. reflexivity.
Defined.

Lemma index_result_witness :
  let summary := summarize_text no_case_table (clean_text long_text) 6 in
  let questions := generate_questions no_case_table (clean_text long_text) 6 in
  index no_case_table same_name blank_pages long_content (post_file (py "notes.txt"))
  = RenderResult (py "notes.txt") summary questions /\
  (1 <= length questions <= 6)%nat.
Proof.
  intros summary questions.
  assert (index no_case_table same_name blank_pages long_content
            (post_file (py "notes.txt"))
          = RenderResult (py "notes.txt") summary questions) as H
      by (vm_compute; reflexivity).
  split; [exact H|].
  destruct (index_result no_case_table same_name blank_pages long_content
              (post_file (py "notes.txt")) (py "notes.txt") summary questions H)
    as (_ & name & raw_text & _ & _ & _ & _ & _ & _ & _ & Hlen).
  exact Hlen.
Defined.

Lemma index_sanitised_without_dot_witness :
  allowed_file no_case_table (py ".pdf") = true /\
  has_dot (drop_leading_dots (py ".pdf")) = false /\
  index no_case_table drop_leading_dots blank_pages long_content (post_file (py ".pdf"))
  = RaiseIndexError.
Proof.
  assert (allowed_file no_case_table (py ".pdf") = true) as H1
      by (vm_compute; reflexivity).
  assert (has_dot (drop_leading_dots (py ".pdf")) = false) as H2
      by (vm_compute; reflexivity).
  split; [exact H1|]. split; [exact H2|].
  exact (index_sanitised_without_dot no_case_table drop_leading_dots blank_pages
           long_content (post_file (py ".pdf")) (py ".pdf") eq_refl eq_refl H1 H2).
Defined.

Lemma index_blank_pdf_witness :
  allowed_file no_case_table (py "scan.PDF") = true /\
  index no_case_table same_name blank_pages long_content (post_file (py "scan.PDF"))
  = RedirectFlash IndexUrl MSG_TOO_SHORT.
Proof.
  assert (allowed_file no_case_table (py "scan.PDF") = true) as H1
      by (vm_compute; reflexivity).
  split; [exact H1|].
  exact (index_blank_pdf no_case_table same_name blank_pages long_content
           (post_file (py "scan.PDF")) (py "scan.PDF") (py "scan") (py "PDF")
           [None; Some (py "  "); None]
           eq_refl eq_refl H1 eq_refl eq_refl eq_refl eq_refl eq_refl).
Defined.
